(** * Bump allocators: the upward arena of task1.hpp and the downward arena
      of task3.cpp

    The two classes [BumpAllocator<N>] and [BumpDownAllocator<N>] are embedded
    as pure state transformers over a flat address space.

    - A [size_t] value is an integer in [0, 2^bits); every [size_t] operation
      of the source ([sizeof(T) * n], [++allocations_], [--allocations_],
      the subtraction in [remaining_space]) is reduced modulo [2^bits].
      The width [bits] is a parameter: the source does not fix the platform.
    - A [char*] is an address, an integer in [0, 2^bits) as well; the
      address [memory_] of the array is a parameter.  Pointer addition and
      subtraction are reduced modulo [2^bits], pointer comparison is the
      comparison of the addresses: [next_ + size] wraps around the address
      space when [size] is large enough.  The address 0 is [nullptr].
    - The template parameter [N] and [sizeof(T)] are ordinary arguments.

    The callers of the two classes are embedded on top of them: the loops
    of the benchmark workloads of task3.cpp, and the counters of the test
    fixture of simpletest.h with the loop of [main] of task2.cpp.  The
    measurement of time in task3.hpp is not modelled. *)

From Stdlib Require Import ZArith List Lia Bool.
From Stdlib Require String.
Import ListNotations.
Open Scope Z_scope.

(** ** size_t and pointer arithmetic *)

Section SizeT.
Variable bits : positive.

Definition modulus : Z := 2 ^ Z.pos bits.

(** Reduction of an integer to the [size_t], or the address, it denotes. *)
Definition wrap (x : Z) : Z := x mod modulus.

(** [size_t size = sizeof(T) * n;] *)
Definition alloc_size (sizeofT n : Z) : Z := wrap (sizeofT * n).
End SizeT.

(** A pointer handed to the caller: [None] is [nullptr], [Some a] is the
    non-null address [a]. *)
Definition pointer : Type := option Z.

(** The pointer with a given address. *)
Definition to_pointer (address : Z) : pointer :=
  if address =? 0 then None else Some address.

(** ** task1.hpp: BumpAllocator<N> *)

Module BumpAllocator.

Record t : Type := mk { next_ : Z; allocations_ : Z }.

Section WithN.
Variable bits : positive.
(** The address of the array [memory_]. *)
Variable memory_ : Z.
Variable N : Z.

(** [BumpAllocator() : next_(memory_), allocations_(0) {}] *)
Definition init : t := {| next_ := memory_; allocations_ := 0 |}.

Definition alloc (sizeofT n : Z) (a : t) : pointer * t :=
  let size := alloc_size bits sizeofT n in
  if wrap bits (next_ a + size) >? wrap bits (memory_ + N) then (None, a)
  else
    let result := next_ a in
    (to_pointer result,
     {| next_ := wrap bits (next_ a + size);
        allocations_ := wrap bits (allocations_ a + 1) |}).

Definition dealloc (a : t) : t :=
  if allocations_ a >? 0 then
    let a1 := {| next_ := next_ a;
                 allocations_ := wrap bits (allocations_ a - 1) |} in
    if allocations_ a1 =? 0
    then {| next_ := memory_; allocations_ := allocations_ a1 |}
    else a1
  else a.

Definition capacity : Z := N.

Definition allocations (a : t) : Z := allocations_ a.

(** [return N - (next_ - memory_);] *)
Definition remaining_space (a : t) : Z :=
  wrap bits (N - wrap bits (next_ a - memory_)).
End WithN.

End BumpAllocator.

(** ** task3.cpp: BumpDownAllocator<N> *)

Module BumpDownAllocator.

Record t : Type := mk { next_ : Z; allocations_ : Z }.

Section WithN.
Variable bits : positive.
(** The address of the array [memory_]. *)
Variable memory_ : Z.
Variable N : Z.

(** [BumpDownAllocator() : next_(memory_ + N), allocations_(0) {}] *)
Definition init : t :=
  {| next_ := wrap bits (memory_ + N); allocations_ := 0 |}.

Definition alloc (sizeofT n : Z) (a : t) : pointer * t :=
  let size := alloc_size bits sizeofT n in
  if wrap bits (next_ a - size) <? memory_ then (None, a)
  else
    let a1 := {| next_ := wrap bits (next_ a - size);
                 allocations_ := wrap bits (allocations_ a + 1) |} in
    (to_pointer (next_ a1), a1).

Definition dealloc (a : t) : t :=
  if allocations_ a >? 0 then
    let a1 := {| next_ := next_ a;
                 allocations_ := wrap bits (allocations_ a - 1) |} in
    if allocations_ a1 =? 0
    then {| next_ := wrap bits (memory_ + N);
            allocations_ := allocations_ a1 |}
    else a1
  else a.
End WithN.

End BumpDownAllocator.

(** ** The two arenas behind one interface

    [BumpUpAllocator<N>] of task3.cpp is [BumpAllocator<N>] itself (an empty
    subclass); [BumpDownAllocator<N>] is the second class.  An [arena] is an
    object of one or the other, and the operations dispatch on the class. *)

Inductive direction : Type := Up | Down.

Inductive arena : Type :=
| Upward (a : BumpAllocator.t)
| Downward (a : BumpDownAllocator.t).

(** The public members a class declares. *)
Inductive member : Type :=
| m_constructor | m_alloc | m_dealloc
| m_capacity | m_allocations | m_remaining_space.

Definition declares (d : direction) (m : member) : bool :=
  match d, m with
  | Up, _ => true
  | Down, (m_constructor | m_alloc | m_dealloc) => true
  | Down, _ => false
  end.

Section Arena.
Variable bits : positive.
Variable memory_ : Z.
Variable N : Z.

Definition construct (d : direction) : arena :=
  match d with
  | Up => Upward (BumpAllocator.init memory_)
  | Down => Downward (BumpDownAllocator.init bits memory_ N)
  end.

Definition direction_of (x : arena) : direction :=
  match x with Upward _ => Up | Downward _ => Down end.

Definition allocate (sizeofT n : Z) (x : arena) : pointer * arena :=
  match x with
  | Upward a =>
      let '(p, a') := BumpAllocator.alloc bits memory_ N sizeofT n a in
      (p, Upward a')
  | Downward a =>
      let '(p, a') := BumpDownAllocator.alloc bits memory_ sizeofT n a in
      (p, Downward a')
  end.

Definition release (x : arena) : arena :=
  match x with
  | Upward a => Upward (BumpAllocator.dealloc bits memory_ a)
  | Downward a => Downward (BumpDownAllocator.dealloc bits memory_ N a)
  end.

(** The private field [next_], an address. *)
Definition cursor (x : arena) : Z :=
  match x with
  | Upward a => BumpAllocator.next_ a
  | Downward a => BumpDownAllocator.next_ a
  end.

(** Where the constructor puts [next_]. *)
Definition initial_cursor (x : arena) : Z :=
  match x with
  | Upward _ => memory_
  | Downward _ => wrap bits (memory_ + N)
  end.

(** The live count.  [BumpDownAllocator] declares no accessor for it; its
    private field [allocations_] is read directly. *)
Definition allocationCount (x : arena) : Z :=
  match x with
  | Upward a => BumpAllocator.allocations a
  | Downward a => BumpDownAllocator.allocations_ a
  end.

(** The free byte count.  For the upward arena this is [remaining_space()].
    [BumpDownAllocator] declares no such accessor: its value is the capacity
    minus the distance of [next_] from its initial position [memory_ + N],
    computed in [size_t] like the upward accessor. *)
Definition remainingSpace (x : arena) : Z :=
  match x with
  | Upward a => BumpAllocator.remaining_space bits memory_ N a
  | Downward a =>
      wrap bits (N - wrap bits ((memory_ + N) - BumpDownAllocator.next_ a))
  end.

(** The values an object of either class can hold when its cursor is inside
    the array: the array lies in the address space at a non-null address,
    with its one-past-the-end address, [next_] points into it or one past
    its end, and [allocations_] is a [size_t]. *)
Definition wf (x : arena) : Prop :=
  0 < memory_ /\ 0 <= N /\ memory_ + N < modulus bits /\
  memory_ <= cursor x <= memory_ + N /\
  0 <= allocationCount x < modulus bits.

(** The two states of the arena's life cycle. *)
Definition Empty (x : arena) : Prop :=
  allocationCount x = 0 /\ cursor x = initial_cursor x.

(** A byte length for which the address computed by the bound test of
    [alloc] stays inside the address space, whatever the position of the
    cursor in the array: [next_ + size] does not pass [2^bits] in the upward
    arena, [next_ - size] does not pass 0 in the downward arena. *)
Definition reach (d : direction) (len : Z) : Prop :=
  match d with
  | Up => memory_ + N + len < modulus bits
  | Down => len <= memory_
  end.

(** *** Sequences of calls *)

Inductive call : Type :=
| Alloc (sizeofT n : Z)
| Dealloc.

(** What a call hands back: the pointer of an [alloc], nothing for a
    [dealloc]. *)
Inductive result : Type :=
| Returned (p : pointer)
| Done.

Definition step (c : call) (x : arena) : result * arena :=
  match c with
  | Alloc sizeofT n => let '(p, x') := allocate sizeofT n x in (Returned p, x')
  | Dealloc => (Done, release x)
  end.

Fixpoint exec (cs : list call) (x : arena) : list result * arena :=
  match cs with
  | [] => ([], x)
  | c :: cs' =>
      let '(r, x1) := step c x in
      let '(rs, x2) := exec cs' x1 in
      (r :: rs, x2)
  end.

Definition run (cs : list call) (x : arena) : arena := snd (exec cs x).

(** A state some sequence of calls on a fresh object ends in. *)
Definition reachable (x : arena) : Prop :=
  exists d cs, x = run cs (construct d).

(** [allocs rs x]: the requests [rs] (pairs [sizeof(T), n]) made in order,
    [Some] of the final state when every one of them returned a non-null
    pointer. *)
Fixpoint allocs (rs : list (Z * Z)) (x : arena) : option arena :=
  match rs with
  | [] => Some x
  | (sizeofT, n) :: rs' =>
      match allocate sizeofT n x with
      | (Some _, x') => allocs rs' x'
      | (None, _) => None
      end
  end.

(** The bytes the requests [rs] ask for, each length as [alloc] computes
    it. *)
Fixpoint total_length (rs : list (Z * Z)) : Z :=
  match rs with
  | [] => 0
  | (sizeofT, n) :: rs' => alloc_size bits sizeofT n + total_length rs'
  end.

(** [k] calls of [dealloc]. *)
Fixpoint releases (k : nat) (x : arena) : arena :=
  match k with
  | O => x
  | S k' => releases k' (release x)
  end.

(** Success or failure of a call, forgetting the address. *)
Definition succeeded (r : result) : bool :=
  match r with
  | Returned (Some _) => true
  | Returned None => false
  | Done => true
  end.

(** The byte length a request asks for. *)
Definition length_of (c : call) : Z :=
  match c with
  | Alloc sizeofT n => alloc_size bits sizeofT n
  | Dealloc => 0
  end.

Definition zero_length (c : call) : bool :=
  match c with
  | Alloc sizeofT n => alloc_size bits sizeofT n =? 0
  | Dealloc => false
  end.

(** The calls [alloc<T>(n)] of a batch of requests [(sizeof(T), n)]. *)
Definition request_calls (rs : list (Z * Z)) : list call :=
  map (fun r => Alloc (fst r) (snd r)) rs.
End Arena.

(** ** The two classes side by side *)

Section Mirror.
Variable bits : positive.
(** The address of the array of the upward object and of the downward
    object. *)
Variable memory_up memory_down : Z.
Variable N : Z.

(** An upward and a downward object that have consumed the same bytes and
    count the same allocations. *)
Definition mirrored (x y : arena) : Prop :=
  match x, y with
  | Upward a, Downward b =>
      BumpDownAllocator.next_ b - memory_down
        = N - (BumpAllocator.next_ a - memory_up)
      /\ BumpDownAllocator.allocations_ b = BumpAllocator.allocations_ a
  | _, _ => False
  end.

(** The region that starts [o] bytes above the low end of the upward array
    is the region that ends [o] bytes below the high end of the downward
    array. *)
Definition mirror_result (c : call) (r : result) : result :=
  match r with
  | Returned (Some p) =>
      Returned (Some (memory_down + N - (p - memory_up) - length_of bits c))
  | Returned None => Returned None
  | Done => Done
  end.

Fixpoint mirror_results (cs : list call) (rs : list result) : list result :=
  match cs, rs with
  | c :: cs', r :: rs' => mirror_result c r :: mirror_results cs' rs'
  | _, _ => []
  end.
End Mirror.

(** ** Regions handed out by [alloc] *)

Section Regions.
Variable bits : positive.
Variable memory_ : Z.
Variable N : Z.

(** A region of memory: address of its first byte and length in bytes. *)
Definition region : Type := (Z * Z)%type.

(** A region inside the array. *)
Definition in_bounds (r : region) : Prop :=
  memory_ <= fst r /\ 0 <= snd r /\ fst r + snd r <= memory_ + N.

(** Two regions that share no byte. *)
Definition disjoint (r1 r2 : region) : Prop :=
  fst r1 + snd r1 <= fst r2 \/ fst r2 + snd r2 <= fst r1.

(** Two regions that share a byte. *)
Definition overlap (r1 r2 : region) : Prop :=
  exists b, fst r1 <= b < fst r1 + snd r1 /\ fst r2 <= b < fst r2 + snd r2.

(** Whether a call of [dealloc] on [x] runs the assignment that puts
    [next_] back to its initial position: [allocations_ > 0] and, after the
    decrement, [allocations_ == 0]. *)
Definition resets (x : arena) : bool :=
  (allocationCount x >? 0) && (wrap bits (allocationCount x - 1) =? 0).

(** The regions returned by the successful [alloc]s of a run since the last
    reset of the cursor, newest first; [acc] holds those of the calls made
    before. *)
Fixpoint live_regions (cs : list call) (x : arena) (acc : list region)
  : list region :=
  match cs with
  | [] => acc
  | c :: cs' =>
      let '(r, x') := step bits memory_ N c x in
      let acc' :=
        match c, r with
        | Alloc sizeofT n, Returned (Some p) =>
            (p, alloc_size bits sizeofT n) :: acc
        | Alloc _ _, _ => acc
        | Dealloc, _ => if resets x then [] else acc
        end in
      live_regions cs' x' acc'
  end.

Fixpoint sum_lengths (rs : list region) : Z :=
  match rs with
  | [] => 0
  | r :: rs' => snd r + sum_lengths rs'
  end.

(** The part of the array between the initial position of the cursor and
    the cursor: [used_from x, used_to x). *)
Definition used_from (x : arena) : Z :=
  match x with
  | Upward _ => memory_
  | Downward a => BumpDownAllocator.next_ a
  end.

Definition used_to (x : arena) : Z :=
  match x with
  | Upward a => BumpAllocator.next_ a
  | Downward _ => memory_ + N
  end.
End Regions.

(** ** task3.cpp: the benchmark workloads

    The bodies of the lambdas [up_test] and [down_test]: a fresh arena of
    [HEAP_SIZE] bytes and a loop of [alloc] calls.  The stores through the
    returned pointers ([*ptr = 'a'], [*ptr = 42]) write into [memory_], which
    the allocator never reads; they are left out.  The timing around the
    lambdas ([Benchmark::run]) is not part of the embedding. *)

Definition HEAP_SIZE : Z := 1024 * 1024.

Definition ALLOC_SIZE : Z := 1024.

Section Workloads.
Variable bits : positive.
(** The address of the array of the arena the lambda constructs. *)
Variable memory_ : Z.
(** [sizeof(int)]; [sizeof(char)] is 1. *)
Variable sizeof_int : Z.

(** [benchmark_small_allocations(count)]:
    [for (i = 0; i < count; ++i) alloc<char>();] *)
Definition small_allocations (d : direction) (count : nat)
  : list result * arena :=
  exec bits memory_ HEAP_SIZE (repeat (Alloc 1 1) count)
    (construct bits memory_ HEAP_SIZE d).

(** [benchmark_large_allocations(count)]:
    [for (i = 0; i < count; ++i) alloc<char>(ALLOC_SIZE);] *)
Definition large_allocations (d : direction) (count : nat)
  : list result * arena :=
  exec bits memory_ HEAP_SIZE (repeat (Alloc 1 ALLOC_SIZE) count)
    (construct bits memory_ HEAP_SIZE d).

(** The call of iteration [i] of [benchmark_mixed_allocations]:
    [alloc<char>()] when [i % 2 == 0], [alloc<int>()] otherwise. *)
Definition mixed_call (i : nat) : call :=
  if Nat.even i then Alloc 1 1 else Alloc sizeof_int 1.

Definition mixed_calls (iterations : nat) : list call :=
  map mixed_call (seq 0 iterations).

(** [benchmark_mixed_allocations()]: [for (i = 0; i < 1000; ++i) ...] *)
Definition mixed_allocations (d : direction) : list result * arena :=
  exec bits memory_ HEAP_SIZE (mixed_calls 1000)
    (construct bits memory_ HEAP_SIZE d).
End Workloads.

(** ** simpletest.h: TestFixture and the assertion macros

    The two static [int] counters are the state.  [x++] on an [int] is
    undefined at [INT_MAX]: the increments return [None] there.  What the
    functions print is kept as a list of lines, oldest first; the file name
    and line number of a failure report are arguments. *)

Module TestFixture.

Inductive line : Type :=
| RunningGroup (groupName : String.string)
| GroupHeader (groupName : String.string)
| Summary (passed total : Z)
| Failed (message file : String.string) (lineno : Z)
| FailedEqual (message expected actual file : String.string) (lineno : Z)
| Passed (message : String.string).

Record t : Type := mk {
  passedTests : Z;
  totalTests : Z;
  Verbose : bool;
  cout : list line
}.

(** The initialisers of the static members. *)
Definition init : t :=
  {| passedTests := 0; totalTests := 0; Verbose := true; cout := [] |}.

Definition print (l : line) (s : t) : t :=
  {| passedTests := passedTests s; totalTests := totalTests s;
     Verbose := Verbose s; cout := cout s ++ [l] |}.

Section WithInt.
Variable INT_MAX : Z.

(** [x++] on an [int]. *)
Definition incr (x : Z) : option Z :=
  if x <? INT_MAX then Some (x + 1) else None.

Definition IncrementPassed (s : t) : option t :=
  match incr (passedTests s) with
  | Some p => Some {| passedTests := p; totalTests := totalTests s;
                      Verbose := Verbose s; cout := cout s |}
  | None => None
  end.

Definition IncrementTotal (s : t) : option t :=
  match incr (totalTests s) with
  | Some n => Some {| passedTests := passedTests s; totalTests := n;
                      Verbose := Verbose s; cout := cout s |}
  | None => None
  end.

(** [TEST_MESSAGE(condition, message)] *)
Definition TEST_MESSAGE (condition : bool) (message file : String.string)
  (lineno : Z) (s : t) : option t :=
  match IncrementTotal s with
  | None => None
  | Some s1 =>
      if negb condition then Some (print (Failed message file lineno) s1)
      else
        match IncrementPassed s1 with
        | None => None
        | Some s2 =>
            if Verbose s2 then Some (print (Passed message) s2) else Some s2
        end
  end.

(** [TEST_EQUAL(actual, expected, message)]; [equal] is the value of
    [(actual) == (expected)], [expected] and [actual] are the two values as
    [operator<<] prints them. *)
Definition TEST_EQUAL (equal : bool)
  (expected actual message file : String.string)
  (lineno : Z) (s : t) : option t :=
  match IncrementTotal s with
  | None => None
  | Some s1 =>
      if negb equal
      then Some (print (FailedEqual message expected actual file lineno) s1)
      else
        match IncrementPassed s1 with
        | None => None
        | Some s2 =>
            if Verbose s2 then Some (print (Passed message) s2) else Some s2
        end
  end.

(** [ExecuteTestGroup(groupName, verbose)]; the argument [verbose] is not
    used by the body. *)
Definition ExecuteTestGroup (groupName : String.string) (verbose : bool)
  (s : t) : bool * t :=
  let s1 := print (GroupHeader groupName) s in
  let s2 := print (Summary (passedTests s1) (totalTests s1)) s1 in
  let allPassed := passedTests s2 =? totalTests s2 in
  (allPassed,
   {| passedTests := 0; totalTests := 0;
      Verbose := Verbose s2; cout := cout s2 |}).

(** An assertion as a test function makes it. *)
Inductive assertion : Type :=
| Message (condition : bool) (message file : String.string) (lineno : Z)
| Equal (equal : bool) (expected actual message file : String.string)
    (lineno : Z).

Definition holds (a : assertion) : bool :=
  match a with
  | Message condition _ _ _ => condition
  | Equal equal _ _ _ _ _ => equal
  end.

Definition assert (a : assertion) (s : t) : option t :=
  match a with
  | Message condition message file lineno =>
      TEST_MESSAGE condition message file lineno s
  | Equal equal expected actual message file lineno =>
      TEST_EQUAL equal expected actual message file lineno s
  end.

(** The assertions of the tests of a group, in the order they are made. *)
Fixpoint asserts (l : list assertion) (s : t) : option t :=
  match l with
  | [] => Some s
  | a :: l' =>
      match assert a s with
      | Some s1 => asserts l' s1
      | None => None
      end
  end.

(** The loop of [main] in task2.cpp over the test groups, each given by its
    name and the assertions its tests make: the name of the group is
    printed, the tests run, then
    [pass &= ExecuteTestGroup(group.name, Verbose)]. *)
Fixpoint run_groups (groups : list (String.string * list assertion))
  (pass : bool) (s : t) : option (bool * t) :=
  match groups with
  | [] => Some (pass, s)
  | (name, l) :: groups' =>
      match asserts l (print (RunningGroup name) s) with
      | None => None
      | Some s1 =>
          let '(allPassed, s2) := ExecuteTestGroup name (Verbose s1) s1 in
          run_groups groups' (pass && allPassed) s2
      end
  end.

(** [main]: [return pass ? 0 : 1;] *)
Definition main (groups : list (String.string * list assertion)) : option Z :=
  match run_groups groups true init with
  | Some (pass, _) => Some (if pass then 0 else 1)
  | None => None
  end.

Definition is_failure (l : line) : bool :=
  match l with
  | Failed _ _ _ | FailedEqual _ _ _ _ _ => true
  | _ => false
  end.
End WithInt.

End TestFixture.

(** ** Proof automation *)

(** Unfolding of the operations down to the fields of the two records. *)
Ltac arena_unfold :=
  unfold wf, Empty, reach, allocate, release, remainingSpace, allocationCount,
    cursor, initial_cursor, direction_of,
    BumpAllocator.alloc, BumpAllocator.dealloc, BumpAllocator.remaining_space,
    BumpAllocator.allocations, BumpAllocator.init,
    BumpDownAllocator.alloc, BumpDownAllocator.dealloc, BumpDownAllocator.init
    in *;
  cbn [BumpAllocator.next_ BumpAllocator.allocations_
       BumpDownAllocator.next_ BumpDownAllocator.allocations_ fst snd] in *.

(** Case analysis on the comparisons the code branches on. *)
Ltac cases_on_tests :=
  repeat match goal with
    | |- context [ ?a >? ?b ] => destruct (Z.gtb_spec a b)
    | |- context [ ?a <? ?b ] => destruct (Z.ltb_spec a b)
    | |- context [ ?a =? ?b ] => destruct (Z.eqb_spec a b)
    | H : context [ ?a >? ?b ] |- _ => destruct (Z.gtb_spec a b)
    | H : context [ ?a <? ?b ] |- _ => destruct (Z.ltb_spec a b)
    | H : context [ ?a =? ?b ] |- _ => destruct (Z.eqb_spec a b)
    end.

(** * Properties *)

(** ** size_t and pointer arithmetic *)

Section SizeTFacts.
Variable bits : positive.

Lemma modulus_pos : 0 < modulus bits.
Proof. unfold modulus. apply Z.pow_pos_nonneg; lia. Qed.

Lemma wrap_range (x : Z) : 0 <= wrap bits x < modulus bits.
Proof. unfold wrap. apply Z.mod_pos_bound, modulus_pos. Qed.

Lemma wrap_small (x : Z) : 0 <= x < modulus bits -> wrap bits x = x.
Proof. unfold wrap. apply Z.mod_small. Qed.

Lemma wrap_idem (x : Z) : wrap bits (wrap bits x) = wrap bits x.
Proof. apply wrap_small, wrap_range. Qed.

Lemma wrap_modulus : wrap bits (modulus bits) = 0.
Proof. unfold wrap. apply Z.mod_same. pose proof modulus_pos. lia. Qed.

Lemma wrap_add_l (a b : Z) : wrap bits (wrap bits a + b) = wrap bits (a + b).
Proof.
  unfold wrap. apply Z.add_mod_idemp_l. pose proof modulus_pos. lia.
Qed.


Lemma alloc_size_range (sizeofT n : Z) :
  0 <= alloc_size bits sizeofT n < modulus bits.
Proof. apply wrap_range. Qed.

Lemma alloc_size_exact (sizeofT n : Z) :
  0 <= sizeofT * n < modulus bits -> alloc_size bits sizeofT n = sizeofT * n.
Proof. apply wrap_small. Qed.

(** [++c] on a counter below the maximum. *)
Lemma wrap_succ (c : Z) :
  0 <= c < modulus bits - 1 -> wrap bits (c + 1) = c + 1.
Proof. intros. apply wrap_small. lia. Qed.

(** [--c] on a positive counter. *)
Lemma wrap_pred (c : Z) :
  0 < c < modulus bits -> wrap bits (c - 1) = c - 1.
Proof. intros. apply wrap_small. lia. Qed.

Lemma to_pointer_pos (a : Z) : 0 < a -> to_pointer a = Some a.
Proof.
  intros H. unfold to_pointer. destruct (Z.eqb_spec a 0); [lia | reflexivity].
Qed.

End SizeTFacts.

(** ** One call *)

Section OneCall.
Variable bits : positive.
Variable memory_ : Z.
Variable N : Z.

(** On an object with its cursor inside the array the free byte count is
    the distance from the cursor to the far end of the array. *)
Lemma remainingSpace_wf (x : arena) :
  wf bits memory_ N x ->
  remainingSpace bits memory_ N x =
    match x with
    | Upward a => memory_ + N - BumpAllocator.next_ a
    | Downward a => BumpDownAllocator.next_ a - memory_
    end.
Proof.
  destruct x as [[c k] | [c k]]; arena_unfold;
    intros (Hm & HN & HM & Hc & Hk).
  - rewrite (wrap_small bits (c - memory_)) by lia. rewrite wrap_small; lia.
  - rewrite (wrap_small bits (memory_ + N - c)) by lia.
    rewrite wrap_small; lia.
Qed.

Lemma remainingSpace_range (x : arena) :
  wf bits memory_ N x -> 0 <= remainingSpace bits memory_ N x <= N.
Proof.
  intros H. rewrite (remainingSpace_wf x H).
  destruct x; arena_unfold; lia.
Qed.

Lemma wf_construct (d : direction) :
  0 < memory_ -> 0 <= N -> memory_ + N < modulus bits ->
  wf bits memory_ N (construct bits memory_ N d).
Proof.
  intros Hm HN HM. destruct d; unfold construct; arena_unfold;
    rewrite ?wrap_small by lia; lia.
Qed.

Lemma Empty_construct (d : direction) :
  Empty bits memory_ N (construct bits memory_ N d).
Proof. destruct d; unfold construct; arena_unfold; auto. Qed.

(** The counter after an [alloc] that returned a pointer. *)
Lemma allocate_count (sizeofT n p : Z) (x x' : arena) :
  allocate bits memory_ N sizeofT n x = (Some p, x') ->
  direction_of x' = direction_of x /\
  allocationCount x' = wrap bits (allocationCount x + 1).
Proof.
  destruct x as [a | a]; arena_unfold; cases_on_tests; intros E;
    inversion E; subst; cbn; auto.
Qed.


(** A request that fits succeeds. *)
Lemma allocate_fit (sizeofT n : Z) (x : arena) :
  wf bits memory_ N x ->
  alloc_size bits sizeofT n <= remainingSpace bits memory_ N x ->
  exists x',
    allocate bits memory_ N sizeofT n x =
      (Some match direction_of x with
            | Up => cursor x
            | Down => cursor x - alloc_size bits sizeofT n
            end, x') /\
    wf bits memory_ N x' /\
    direction_of x' = direction_of x /\
    cursor x' = match direction_of x with
                | Up => cursor x + alloc_size bits sizeofT n
                | Down => cursor x - alloc_size bits sizeofT n
                end /\
    remainingSpace bits memory_ N x' =
      remainingSpace bits memory_ N x - alloc_size bits sizeofT n /\
    allocationCount x' = wrap bits (allocationCount x + 1).
Proof.
  intros H Fit. rewrite (remainingSpace_wf x H) in *.
  pose proof (alloc_size_range bits sizeofT n) as Hs.
  assert (G : exists x',
    allocate bits memory_ N sizeofT n x =
      (Some match direction_of x with
            | Up => cursor x
            | Down => cursor x - alloc_size bits sizeofT n
            end, x') /\
    wf bits memory_ N x' /\
    direction_of x' = direction_of x /\
    cursor x' = match direction_of x with
                | Up => cursor x + alloc_size bits sizeofT n
                | Down => cursor x - alloc_size bits sizeofT n
                end /\
    allocationCount x' = wrap bits (allocationCount x + 1)).
  { pose proof H as (Hm & HN & HM & Hc & Hk).
    destruct x as [[c k] | [c k]]; arena_unfold;
      generalize dependent (alloc_size bits sizeofT n); intros L Fit Hs.
    - pose proof (wrap_range bits (k + 1)).
      rewrite (wrap_small bits (c + L)), (wrap_small bits (memory_ + N))
        by lia.
      destruct (Z.gtb_spec (c + L) (memory_ + N)); [lia | ].
      rewrite to_pointer_pos by lia.
      eexists. split; [reflexivity | ]. arena_unfold.
      repeat split; try reflexivity; lia.
    - pose proof (wrap_range bits (k + 1)).
      rewrite (wrap_small bits (c - L)) by lia.
      destruct (Z.ltb_spec (c - L) memory_); [lia | ].
      rewrite to_pointer_pos by lia.
      eexists. split; [reflexivity | ]. arena_unfold.
      repeat split; try reflexivity; lia. }
  destruct G as (x' & E & W & D & C & K).
  exists x'. repeat split; try assumption; try apply W.
  rewrite (remainingSpace_wf x' W).
  destruct x as [a | a], x' as [a' | a']; try discriminate;
    unfold cursor, direction_of in *; lia.
Qed.

(** A request within reach that does not fit fails and writes nothing. *)
Lemma allocate_reach_fails (sizeofT n : Z) (x : arena) :
  wf bits memory_ N x ->
  reach bits memory_ N (direction_of x) (alloc_size bits sizeofT n) ->
  remainingSpace bits memory_ N x < alloc_size bits sizeofT n ->
  allocate bits memory_ N sizeofT n x = (None, x).
Proof.
  intros H R F. rewrite (remainingSpace_wf x H) in *.
  pose proof (alloc_size_range bits sizeofT n) as Hs.
  pose proof H as (Hm & HN & HM & Hc & Hk).
  destruct x as [[c k] | [c k]]; arena_unfold;
    generalize dependent (alloc_size bits sizeofT n); intros L R F Hs.
  - rewrite (wrap_small bits (c + L)), (wrap_small bits (memory_ + N))
      by lia.
    destruct (Z.gtb_spec (c + L) (memory_ + N)); [reflexivity | lia].
  - rewrite (wrap_small bits (c - L)) by lia.
    destruct (Z.ltb_spec (c - L) memory_); [reflexivity | lia].
Qed.

(** One [alloc] within reach, seen through the free byte count and the
    live count. *)
Lemma allocate_obs (sizeofT n : Z) (x x' : arena) (r : pointer) :
  wf bits memory_ N x ->
  reach bits memory_ N (direction_of x) (alloc_size bits sizeofT n) ->
  allocate bits memory_ N sizeofT n x = (r, x') ->
  wf bits memory_ N x' /\ direction_of x' = direction_of x /\
  ((r = None /\ x' = x /\
    remainingSpace bits memory_ N x < alloc_size bits sizeofT n) \/
   (exists p, r = Some p /\
    alloc_size bits sizeofT n <= remainingSpace bits memory_ N x /\
    remainingSpace bits memory_ N x' =
      remainingSpace bits memory_ N x - alloc_size bits sizeofT n /\
    allocationCount x' = wrap bits (allocationCount x + 1))).
Proof.
  intros H R E.
  destruct (Z_lt_le_dec (remainingSpace bits memory_ N x)
              (alloc_size bits sizeofT n)) as [F | F].
  - rewrite (allocate_reach_fails sizeofT n x H R F) in E.
    inversion E; subst. split; [exact H | split; [reflexivity | ]].
    left. auto.
  - destruct (allocate_fit sizeofT n x H F) as (y & E' & W & D & _ & Rm & K).
    rewrite E' in E. inversion E; subst.
    split; [exact W | split; [exact D | ]].
    right. eexists. split; [reflexivity | ]. auto.
Qed.
End OneCall.

Section Release.
Variable bits : positive.
Variable memory_ : Z.
Variable N : Z.

(** [dealloc] with no live allocation: the guard [allocations_ > 0] is
    false and nothing is written. *)
Lemma release_zero (x : arena) :
  allocationCount x = 0 -> release bits memory_ N x = x.
Proof.
  destruct x as [a | a]; arena_unfold; intros ->; reflexivity.
Qed.

(** [dealloc] of the last live allocation resets the cursor. *)
Lemma release_last (x : arena) :
  allocationCount x = 1 ->
  Empty bits memory_ N (release bits memory_ N x) /\
  direction_of (release bits memory_ N x) = direction_of x.
Proof.
  intros E. pose proof (modulus_pos bits).
  destruct x as [a | a]; arena_unfold; rewrite E;
    change (1 >? 0) with true; cbv iota; change (1 - 1) with 0;
    rewrite (wrap_small bits 0) by lia; cbn; auto.
Qed.

(** [dealloc] with more than one live allocation only decrements. *)
Lemma release_more (x : arena) :
  1 < allocationCount x < modulus bits ->
  allocationCount (release bits memory_ N x) = allocationCount x - 1 /\
  cursor (release bits memory_ N x) = cursor x /\
  direction_of (release bits memory_ N x) = direction_of x.
Proof.
  intros E.
  destruct x as [[c k] | [c k]]; arena_unfold;
    rewrite (wrap_pred bits k) by lia;
    destruct (Z.gtb_spec k 0); try lia;
    destruct (Z.eqb_spec (k - 1) 0); try lia; cbn; auto.
Qed.

Lemma release_direction (x : arena) :
  direction_of (release bits memory_ N x) = direction_of x.
Proof. destruct x; reflexivity. Qed.

Lemma initial_cursor_wf (x : arena) :
  0 < memory_ -> 0 <= N -> memory_ + N < modulus bits ->
  memory_ <= initial_cursor bits memory_ N x <= memory_ + N.
Proof.
  intros Hm HN HM. destruct x; unfold initial_cursor;
    rewrite ?wrap_small by lia; lia.
Qed.

Lemma wf_release (x : arena) :
  wf bits memory_ N x -> wf bits memory_ N (release bits memory_ N x).
Proof.
  intros H. pose proof H as (Hm & HN & HM & Hc & Hk).
  destruct (Z.eq_dec (allocationCount x) 0) as [E | E].
  - rewrite release_zero; assumption.
  - destruct (Z.eq_dec (allocationCount x) 1) as [E1 | E1].
    + destruct (release_last x E1) as ((K & C) & D).
      unfold wf. rewrite K, C.
      pose proof (initial_cursor_wf (release bits memory_ N x) Hm HN HM).
      lia.
    + destruct (release_more x ltac:(lia)) as (K & C & _).
      unfold wf. rewrite K, C. lia.
Qed.

(** Two empty objects of the same class are the same object state. *)
Lemma Empty_unique (x y : arena) :
  Empty bits memory_ N x -> Empty bits memory_ N y ->
  direction_of x = direction_of y -> x = y.
Proof.
  destruct x as [[c k] | [c k]], y as [[c' k'] | [c' k']]; arena_unfold;
    intros (-> & ->) (-> & ->) D; try discriminate; reflexivity.
Qed.

Lemma remainingSpace_cursor (x y : arena) :
  wf bits memory_ N x -> wf bits memory_ N y ->
  direction_of x = direction_of y -> cursor x = cursor y ->
  remainingSpace bits memory_ N x = remainingSpace bits memory_ N y.
Proof.
  intros Hx Hy D C. rewrite (remainingSpace_wf bits memory_ N x Hx).
  rewrite (remainingSpace_wf bits memory_ N y Hy).
  destruct x, y; arena_unfold; try discriminate; lia.
Qed.

(** The cursor is where the constructor put it exactly when the whole
    array is free. *)
Lemma at_start_iff (x : arena) :
  wf bits memory_ N x ->
  (cursor x = initial_cursor bits memory_ N x <->
   remainingSpace bits memory_ N x = N).
Proof.
  intros H. rewrite (remainingSpace_wf bits memory_ N x H).
  pose proof H as (Hm & HN & HM & _).
  destruct x; arena_unfold; rewrite ?wrap_small by lia; lia.
Qed.

Lemma remainingSpace_Empty (x : arena) :
  wf bits memory_ N x -> Empty bits memory_ N x ->
  remainingSpace bits memory_ N x = N.
Proof. intros H (_ & C). apply at_start_iff; assumption. Qed.

Lemma release_obs (x : arena) :
  wf bits memory_ N x ->
  wf bits memory_ N (release bits memory_ N x) /\
  direction_of (release bits memory_ N x) = direction_of x /\
  ((allocationCount x = 0 /\ release bits memory_ N x = x) \/
   (allocationCount x = 1 /\
    allocationCount (release bits memory_ N x) = 0 /\
    remainingSpace bits memory_ N (release bits memory_ N x) = N) \/
   (1 < allocationCount x /\
    allocationCount (release bits memory_ N x) = allocationCount x - 1 /\
    remainingSpace bits memory_ N (release bits memory_ N x) =
      remainingSpace bits memory_ N x)).
Proof.
  intros H. pose proof (wf_release x H) as W.
  pose proof H as (_ & _ & _ & _ & Hk).
  split; [exact W | split; [apply release_direction | ]].
  destruct (Z.eq_dec (allocationCount x) 0) as [E0 | E0].
  { left. split; [assumption | apply release_zero; assumption]. }
  destruct (Z.eq_dec (allocationCount x) 1) as [E1 | E1].
  { right; left. destruct (release_last x E1) as (Em & _).
    split; [assumption | split; [apply Em | ]].
    apply remainingSpace_Empty; assumption. }
  right; right.
  destruct (release_more x ltac:(lia)) as (K & C & D).
  split; [lia | split; [assumption | ]].
  apply remainingSpace_cursor; assumption.
Qed.
End Release.

(** ** Sequences of calls *)

Section Sequences.
Variable bits : positive.
Variable memory_ : Z.
Variable N : Z.

Lemma run_nil (x : arena) : run bits memory_ N [] x = x.
Proof. reflexivity. Qed.

Lemma exec_cons (c : call) (cs : list call) (x : arena) :
  exec bits memory_ N (c :: cs) x =
    (fst (step bits memory_ N c x)
       :: fst (exec bits memory_ N cs (snd (step bits memory_ N c x))),
     snd (exec bits memory_ N cs (snd (step bits memory_ N c x)))).
Proof.
  cbn [exec]. destruct (step bits memory_ N c x) as [r x1]. cbn [fst snd].
  destruct (exec bits memory_ N cs x1) as [rs x2]. reflexivity.
Qed.

Lemma run_cons (c : call) (cs : list call) (x : arena) :
  run bits memory_ N (c :: cs) x =
    run bits memory_ N cs (snd (step bits memory_ N c x)).
Proof. unfold run. rewrite exec_cons. reflexivity. Qed.

Lemma step_alloc (sizeofT n : Z) (x : arena) :
  snd (step bits memory_ N (Alloc sizeofT n) x) =
    snd (allocate bits memory_ N sizeofT n x).
Proof.
  cbn [step]. destruct (allocate bits memory_ N sizeofT n x); reflexivity.
Qed.

Lemma step_dealloc (x : arena) :
  snd (step bits memory_ N Dealloc x) = release bits memory_ N x.
Proof. reflexivity. Qed.

Lemma exec_length (cs : list call) :
  forall x, length (fst (exec bits memory_ N cs x)) = length cs.
Proof.
  induction cs as [ | c cs IH]; intros x; [reflexivity | ].
  rewrite exec_cons. cbn [fst length]. rewrite IH. reflexivity.
Qed.

Lemma total_length_nonneg (rs : list (Z * Z)) : 0 <= total_length bits rs.
Proof.
  induction rs as [ | [sizeofT n] rs IH]; cbn [total_length]; [lia | ].
  pose proof (alloc_size_range bits sizeofT n). lia.
Qed.

Lemma total_length_app (rs1 rs2 : list (Z * Z)) :
  total_length bits (rs1 ++ rs2) =
    total_length bits rs1 + total_length bits rs2.
Proof.
  induction rs1 as [ | [sizeofT n] rs1 IH]; cbn [app total_length]; lia.
Qed.

(** The counter after a batch in which every call returned a pointer. *)
Lemma allocs_count (rs : list (Z * Z)) :
  forall x x' : arena,
    0 <= allocationCount x < modulus bits ->
    allocs bits memory_ N rs x = Some x' ->
    direction_of x' = direction_of x /\
    allocationCount x' =
      wrap bits (allocationCount x + Z.of_nat (length rs)).
Proof.
  induction rs as [ | [sizeofT n] rs IH]; intros x x' Hk A.
  - inversion A; subst. cbn [length Z.of_nat].
    rewrite Z.add_0_r, wrap_small by lia. auto.
  - cbn [allocs] in A.
    destruct (allocate bits memory_ N sizeofT n x) as [[p | ] x1] eqn:E;
      [ | discriminate].
    destruct (allocate_count bits memory_ N sizeofT n p x x1 E) as (D & K).
    destruct (IH x1 x') as (D' & K'); [ | exact A | ].
    + rewrite K. apply wrap_range.
    + split; [congruence | ].
      rewrite K', K, wrap_add_l. f_equal. cbn [length].
      rewrite Nat2Z.inj_succ. lia.
Qed.

(** A batch that fits succeeds, one allocation next to the other. *)
Lemma allocs_fit (rs : list (Z * Z)) :
  forall x : arena,
    wf bits memory_ N x ->
    total_length bits rs <= remainingSpace bits memory_ N x ->
    exists x',
      allocs bits memory_ N rs x = Some x' /\
      wf bits memory_ N x' /\
      direction_of x' = direction_of x /\
      remainingSpace bits memory_ N x' =
        remainingSpace bits memory_ N x - total_length bits rs.
Proof.
  induction rs as [ | [sizeofT n] rs IH]; intros x H L.
  - exists x. cbn. repeat split; try apply H. lia.
  - cbn [total_length] in L. pose proof (total_length_nonneg rs) as T.
    destruct (allocate_fit bits memory_ N sizeofT n x H ltac:(lia))
      as (x1 & E & W & D & _ & R & _).
    destruct (IH x1 W ltac:(lia)) as (x' & A & W' & D' & R').
    exists x'. cbn [allocs total_length]. rewrite E.
    split; [exact A | split; [exact W' | split; [congruence | lia]]].
Qed.

(** A batch of requests within reach succeeds only if it fits. *)
Lemma allocs_within_reach (rs : list (Z * Z)) :
  forall x x' : arena,
    wf bits memory_ N x ->
    Forall (fun r => reach bits memory_ N (direction_of x)
                       (alloc_size bits (fst r) (snd r))) rs ->
    allocs bits memory_ N rs x = Some x' ->
    total_length bits rs <= remainingSpace bits memory_ N x.
Proof.
  induction rs as [ | [sizeofT n] rs IH]; intros x x' H F A.
  - cbn. apply remainingSpace_range. exact H.
  - inversion F as [ | r l Fr Fl]; subst. cbn [fst snd] in Fr.
    cbn [allocs] in A.
    destruct (allocate bits memory_ N sizeofT n x) as [[p | ] x1] eqn:E;
      [ | discriminate].
    destruct (allocate_obs bits memory_ N sizeofT n x x1 (Some p) H Fr E)
      as (W & D & [(C & _) | (q & _ & L & R & _)]); [discriminate | ].
    rewrite <- D in Fl. pose proof (IH x1 x' W Fl A).
    cbn [total_length]. lia.
Qed.

(** A batch that succeeds is the run of its calls. *)
Lemma allocs_run (rs : list (Z * Z)) :
  forall x x' : arena,
    allocs bits memory_ N rs x = Some x' ->
    run bits memory_ N (request_calls rs) x = x'.
Proof.
  induction rs as [ | [sizeofT n] rs IH]; intros x x' A.
  - inversion A. reflexivity.
  - cbn [allocs] in A. cbn [request_calls map fst snd].
    rewrite run_cons, step_alloc.
    destruct (allocate bits memory_ N sizeofT n x) as [[p | ] x1];
      [ | discriminate].
    apply IH. exact A.
Qed.

(** Fewer [dealloc]s than live allocations: the counter goes down, the
    cursor stays. *)
Lemma releases_fewer (j : nat) :
  forall x : arena,
    allocationCount x < modulus bits ->
    Z.of_nat j < allocationCount x ->
    direction_of (releases bits memory_ N j x) = direction_of x /\
    allocationCount (releases bits memory_ N j x) =
      allocationCount x - Z.of_nat j /\
    cursor (releases bits memory_ N j x) = cursor x.
Proof.
  induction j as [ | j IH]; intros x B L.
  - cbn. repeat split; lia.
  - cbn [releases]. rewrite Nat2Z.inj_succ in L.
    destruct (release_more bits memory_ N x ltac:(lia)) as (K & C & D).
    destruct (IH (release bits memory_ N x) ltac:(lia) ltac:(lia))
      as (D' & K' & C').
    split; [congruence | split; [lia | congruence]].
Qed.

(** As many [dealloc]s as live allocations: the object is empty again. *)
Lemma releases_all (k : nat) :
  forall x : arena,
    (k <> 0)%nat ->
    allocationCount x = Z.of_nat k ->
    allocationCount x < modulus bits ->
    direction_of (releases bits memory_ N k x) = direction_of x /\
    Empty bits memory_ N (releases bits memory_ N k x).
Proof.
  induction k as [ | k IH]; intros x Hk K B; [congruence | ].
  cbn [releases]. rewrite Nat2Z.inj_succ in K.
  destruct k as [ | k].
  - cbn [releases]. destruct (release_last bits memory_ N x ltac:(lia)).
    auto.
  - destruct (release_more bits memory_ N x ltac:(lia)) as (K' & _ & D).
    destruct (IH (release bits memory_ N x) ltac:(lia) ltac:(lia) ltac:(lia))
      as (D' & E').
    split; [congruence | exact E'].
Qed.

(** From an empty object, a batch of calls that all returned a pointer and
    as many [dealloc]s give the empty object back. *)
Lemma reset_state (rs : list (Z * Z)) (x x' : arena) :
  Empty bits memory_ N x ->
  Z.of_nat (length rs) < modulus bits ->
  allocs bits memory_ N rs x = Some x' ->
  releases bits memory_ N (length rs) x' = x.
Proof.
  intros Em B A. pose proof Em as (K0 & _).
  pose proof (modulus_pos bits).
  destruct (allocs_count rs x x' ltac:(lia) A) as (D & K).
  rewrite K0, Z.add_0_l, wrap_small in K by lia.
  destruct rs as [ | r rs].
  - cbn in *. congruence.
  - destruct (releases_all (length (r :: rs)) x' ltac:(discriminate) K
                ltac:(lia)) as (D' & Em').
    apply (Empty_unique bits memory_ N); [exact Em' | exact Em | congruence].
Qed.

(** Calls within reach keep the cursor inside the array. *)
Lemma wf_step (c : call) (x : arena) :
  wf bits memory_ N x ->
  reach bits memory_ N (direction_of x) (length_of bits c) ->
  wf bits memory_ N (snd (step bits memory_ N c x)) /\
  direction_of (snd (step bits memory_ N c x)) = direction_of x.
Proof.
  intros H R. destruct c as [sizeofT n | ].
  - rewrite step_alloc.
    destruct (allocate bits memory_ N sizeofT n x) as [r x'] eqn:E.
    destruct (allocate_obs bits memory_ N sizeofT n x x' r H R E)
      as (W & D & _). auto.
  - rewrite step_dealloc.
    destruct (release_obs bits memory_ N x H) as (W & D & _). auto.
Qed.

Lemma wf_run (cs : list call) :
  forall x,
    wf bits memory_ N x ->
    Forall (fun c => reach bits memory_ N (direction_of x)
                       (length_of bits c)) cs ->
    wf bits memory_ N (run bits memory_ N cs x) /\
    direction_of (run bits memory_ N cs x) = direction_of x.
Proof.
  induction cs as [ | c cs IH]; intros x H F.
  - rewrite run_nil. auto.
  - inversion F as [ | c' l Fc Fl]; subst.
    rewrite run_cons. destruct (wf_step c x H Fc) as (W & D).
    rewrite <- D in Fl.
    destruct (IH _ W Fl) as (W' & D'). split; [exact W' | congruence].
Qed.

(** [k] requests of zero bytes always succeed; they move nothing and count
    modulo [2^bits]. *)
Lemma run_zero_lengths (k : nat) :
  forall x : arena,
    wf bits memory_ N x ->
    wf bits memory_ N (run bits memory_ N (repeat (Alloc 1 0) k) x) /\
    remainingSpace bits memory_ N
      (run bits memory_ N (repeat (Alloc 1 0) k) x) =
      remainingSpace bits memory_ N x /\
    allocationCount (run bits memory_ N (repeat (Alloc 1 0) k) x) =
      wrap bits (allocationCount x + Z.of_nat k).
Proof.
  induction k as [ | k IH]; intros x H.
  - cbn [repeat]. rewrite run_nil. pose proof H as (_ & _ & _ & _ & Hk).
    cbn [Z.of_nat]. rewrite Z.add_0_r, wrap_small by lia. auto.
  - cbn [repeat]. rewrite run_cons, step_alloc.
    assert (S0 : alloc_size bits 1 0 = 0).
    { apply alloc_size_exact. pose proof (modulus_pos bits). lia. }
    pose proof (remainingSpace_range bits memory_ N x H) as Hr.
    destruct (allocate_fit bits memory_ N 1 0 x H ltac:(lia))
      as (x' & E & W & _ & _ & R & K).
    rewrite E. cbn [snd].
    destruct (IH x' W) as (W' & R' & K').
    rewrite R', K', R, K, S0, wrap_add_l, Nat2Z.inj_succ.
    split; [exact W' | split; [lia | f_equal; lia]].
Qed.
End Sequences.

(** ** The downward arena next to the upward one *)

Section Simulation.
Variable bits : positive.
Variable memory_up memory_down : Z.
Variable N : Z.

Lemma mirrored_construct :
  0 <= N -> 0 <= memory_down -> memory_down + N < modulus bits ->
  mirrored memory_up memory_down N
    (construct bits memory_up N Up) (construct bits memory_down N Down).
Proof.
  intros HN Hm HM. cbn. arena_unfold. rewrite wrap_small by lia. lia.
Qed.

Lemma mirrored_obs (x y : arena) :
  wf bits memory_up N x -> wf bits memory_down N y ->
  mirrored memory_up memory_down N x y ->
  direction_of x = Up /\ direction_of y = Down /\
  allocationCount x = allocationCount y /\
  cursor y - memory_down = N - (cursor x - memory_up) /\
  remainingSpace bits memory_up N x = remainingSpace bits memory_down N y.
Proof.
  intros Wx Wy M.
  rewrite (remainingSpace_wf bits memory_up N x Wx).
  rewrite (remainingSpace_wf bits memory_down N y Wy).
  destruct x as [a | a], y as [b | b]; cbn [mirrored] in M; try tauto.
  destruct M as (C & K). arena_unfold. repeat split; lia.
Qed.

Lemma mirrored_intro (x y : arena) :
  direction_of x = Up -> direction_of y = Down ->
  allocationCount x = allocationCount y ->
  cursor y - memory_down = N - (cursor x - memory_up) ->
  mirrored memory_up memory_down N x y.
Proof.
  destruct x as [a | a], y as [b | b]; cbn; try discriminate.
  unfold BumpAllocator.allocations. intros _ _ K C. split; lia.
Qed.

(** One call on both objects, for a request within reach of both. *)
Lemma mirrored_step (c : call) (x y : arena) :
  wf bits memory_up N x -> wf bits memory_down N y ->
  mirrored memory_up memory_down N x y ->
  reach bits memory_up N Up (length_of bits c) ->
  reach bits memory_down N Down (length_of bits c) ->
  fst (step bits memory_down N c y) =
    mirror_result bits memory_up memory_down N c
      (fst (step bits memory_up N c x)) /\
  wf bits memory_up N (snd (step bits memory_up N c x)) /\
  wf bits memory_down N (snd (step bits memory_down N c y)) /\
  mirrored memory_up memory_down N
    (snd (step bits memory_up N c x)) (snd (step bits memory_down N c y)).
Proof.
  intros Wx Wy M Ru Rd.
  destruct (mirrored_obs x y Wx Wy M) as (Dx & Dy & K & C & R).
  destruct c as [sizeofT n | ]; cbn [length_of] in Ru, Rd.
  - cbn [step mirror_result length_of].
    destruct (Z_lt_le_dec (remainingSpace bits memory_up N x)
                (alloc_size bits sizeofT n)) as [F | F].
    + rewrite (allocate_reach_fails bits memory_up N sizeofT n x Wx)
        by (rewrite ?Dx; assumption).
      rewrite (allocate_reach_fails bits memory_down N sizeofT n y Wy)
        by (rewrite ?Dy; try assumption; lia).
      cbn. auto.
    + destruct (allocate_fit bits memory_up N sizeofT n x Wx F)
        as (x' & Ex & Wx' & Dx' & Cx' & _ & Kx').
      destruct (allocate_fit bits memory_down N sizeofT n y Wy ltac:(lia))
        as (y' & Ey & Wy' & Dy' & Cy' & _ & Ky').
      rewrite Ex, Ey. rewrite Dx in *. rewrite Dy in *.
      cbn [fst snd mirror_result length_of].
      split; [do 2 f_equal; lia | ].
      split; [exact Wx' | split; [exact Wy' | ]].
      apply mirrored_intro; try congruence; lia.
  - cbn [step fst snd mirror_result].
    split; [reflexivity | ].
    pose proof (wf_release bits memory_up N x Wx) as Wx'.
    pose proof (wf_release bits memory_down N y Wy) as Wy'.
    split; [exact Wx' | split; [exact Wy' | ]].
    pose proof Wx as (_ & _ & _ & _ & Hk).
    pose proof Wx as (Hmu & HN & HMu & _). pose proof Wy as (Hmd & _ & HMd & _).
    apply mirrored_intro;
      try (rewrite release_direction; assumption).
    + destruct (Z.eq_dec (allocationCount x) 0) as [E0 | E0].
      { rewrite !release_zero by lia. exact K. }
      destruct (Z.eq_dec (allocationCount x) 1) as [E1 | E1].
      { destruct (release_last bits memory_up N x E1) as ((Kx & _) & _).
        destruct (release_last bits memory_down N y ltac:(lia))
          as ((Ky & _) & _). lia. }
      destruct (release_more bits memory_up N x ltac:(lia)) as (Kx & _).
      destruct (release_more bits memory_down N y ltac:(lia)) as (Ky & _).
      lia.
    + destruct (Z.eq_dec (allocationCount x) 0) as [E0 | E0].
      { rewrite !release_zero by lia. exact C. }
      destruct (Z.eq_dec (allocationCount x) 1) as [E1 | E1].
      { destruct (release_last bits memory_up N x E1) as ((_ & Cx) & Dx').
        destruct (release_last bits memory_down N y ltac:(lia))
          as ((_ & Cy) & Dy').
        rewrite Cx, Cy. revert Dx' Dy'. rewrite Dx, Dy.
        destruct (release bits memory_up N x),
          (release bits memory_down N y); try discriminate.
        intros _ _. unfold initial_cursor. rewrite wrap_small by lia. lia. }
      destruct (release_more bits memory_up N x ltac:(lia)) as (_ & Cx & _).
      destruct (release_more bits memory_down N y ltac:(lia)) as (_ & Cy & _).
      lia.
Qed.

Lemma mirrored_exec (cs : list call) :
  forall x y : arena,
    wf bits memory_up N x -> wf bits memory_down N y ->
    mirrored memory_up memory_down N x y ->
    Forall (fun c => reach bits memory_up N Up (length_of bits c) /\
                     reach bits memory_down N Down (length_of bits c)) cs ->
    fst (exec bits memory_down N cs y) =
      mirror_results bits memory_up memory_down N cs
        (fst (exec bits memory_up N cs x)) /\
    wf bits memory_up N (snd (exec bits memory_up N cs x)) /\
    wf bits memory_down N (snd (exec bits memory_down N cs y)) /\
    mirrored memory_up memory_down N
      (snd (exec bits memory_up N cs x)) (snd (exec bits memory_down N cs y)).
Proof.
  induction cs as [ | c cs IH]; intros x y Wx Wy M F.
  - cbn. auto.
  - inversion F as [ | c' l (Ru & Rd) Fl]; subst.
    destruct (mirrored_step c x y Wx Wy M Ru Rd) as (R & Wx' & Wy' & M').
    rewrite !exec_cons. cbn [fst snd mirror_results].
    destruct (IH _ _ Wx' Wy' M' Fl) as (Rs & Wx'' & Wy'' & Ms).
    split; [congruence | auto].
Qed.

Lemma succeeded_mirror (c : call) (r : result) :
  succeeded (mirror_result bits memory_up memory_down N c r) = succeeded r.
Proof. destruct r as [[p | ] | ]; reflexivity. Qed.

Lemma succeeded_mirror_results (cs : list call) :
  forall rs, length rs = length cs ->
    map succeeded (mirror_results bits memory_up memory_down N cs rs) =
      map succeeded rs.
Proof.
  induction cs as [ | c cs IH]; intros [ | r rs] L; try discriminate.
  - reflexivity.
  - cbn [mirror_results map]. rewrite succeeded_mirror, IH; [reflexivity | ].
    cbn in L. congruence.
Qed.
End Simulation.

(** * The tests of task2.cpp on the embedding

    A 64-bit [size_t]; the array of each allocator is taken at address
    4096. *)

(** TEST AllocationFailure: an arena of four bytes, two [int]s. *)
Example test_AllocationFailure :
  let '(x, a1) := BumpAllocator.alloc 64 4096 4 4 1 (BumpAllocator.init 4096) in
  let '(y, a2) := BumpAllocator.alloc 64 4096 4 4 1 a1 in
  x <> None /\ y = None /\ BumpAllocator.remaining_space 64 4096 4 a2 = 0.
Proof. vm_compute. repeat split; congruence. Qed.

(** TEST MultipleAllocations: an [int], a [double] and ten [char]s. *)
Example test_MultipleAllocations :
  let '(x, a1) :=
    BumpAllocator.alloc 64 4096 100 4 1 (BumpAllocator.init 4096) in
  let '(d, a2) := BumpAllocator.alloc 64 4096 100 8 1 a1 in
  let '(c, a3) := BumpAllocator.alloc 64 4096 100 1 10 a2 in
  x = Some 4096 /\ d = Some 4100 /\ c = Some 4108 /\
  BumpAllocator.allocations a3 = 3.
Proof. vm_compute. repeat split. Qed.

(** TEST DeallocationReset. *)
Example test_DeallocationReset :
  let initial_space :=
    BumpAllocator.remaining_space 64 4096 64 (BumpAllocator.init 4096) in
  let '(_, a1) :=
    BumpAllocator.alloc 64 4096 64 4 1 (BumpAllocator.init 4096) in
  let '(_, a2) := BumpAllocator.alloc 64 4096 64 4 1 a1 in
  let a3 := BumpAllocator.dealloc 64 4096 a2 in
  let a4 := BumpAllocator.dealloc 64 4096 a3 in
  let '(z, a5) := BumpAllocator.alloc 64 4096 64 4 1 a4 in
  BumpAllocator.allocations a2 = 2 /\ BumpAllocator.allocations a3 = 1 /\
  BumpAllocator.allocations a4 = 0 /\ z <> None /\
  BumpAllocator.remaining_space 64 4096 64 a5 = initial_space - 4.
Proof. vm_compute. repeat split; congruence. Qed.

(** TEST RemainingSpace. *)
Example test_RemainingSpace :
  let '(_, a1) :=
    BumpAllocator.alloc 64 4096 100 4 1 (BumpAllocator.init 4096) in
  let '(_, a2) := BumpAllocator.alloc 64 4096 100 8 1 a1 in
  BumpAllocator.remaining_space 64 4096 100 (BumpAllocator.init 4096) = 100 /\
  BumpAllocator.remaining_space 64 4096 100 a1 = 100 - 4 /\
  BumpAllocator.remaining_space 64 4096 100 a2 = 100 - 4 - 8.
Proof. vm_compute. repeat split. Qed.

(** task1_test.cpp, test_allocation_failure: five [int]s in sixteen bytes. *)
Example test_allocation_failure :
  fst (BumpAllocator.alloc 64 4096 16 4 5 (BumpAllocator.init 4096)) = None.
Proof. reflexivity. Qed.

(** * The scenarios of the specification, on both classes *)

(** Capacity 4: one 4-byte element fits, a second one does not. *)
Example scenario_capacity_4 (d : direction) :
  let '(p1, x1) := allocate 64 4096 4 4 1 (construct 64 4096 4 d) in
  let '(p2, x2) := allocate 64 4096 4 4 1 x1 in
  p1 <> None /\ remainingSpace 64 4096 4 x1 = 0 /\
  p2 = None /\ remainingSpace 64 4096 4 x2 = 0 /\ allocationCount x2 = 1.
Proof. destruct d; vm_compute; repeat split; congruence. Qed.

(** Capacity 100: 4 and 8 bytes leave 88; two releases give 100 back. *)
Example scenario_capacity_100 (d : direction) :
  let x2 := run 64 4096 100 [Alloc 4 1; Alloc 8 1] (construct 64 4096 100 d) in
  remainingSpace 64 4096 100 x2 = 88 /\
  remainingSpace 64 4096 100 (releases 64 4096 100 2 x2) = 100.
Proof. destruct d; vm_compute; split; reflexivity. Qed.

(** Capacity 16: five 4-byte elements in one call do not fit. *)
Example scenario_capacity_16 (d : direction) :
  fst (allocate 64 4096 16 4 5 (construct 64 4096 16 d)) = None.
Proof. destruct d; reflexivity. Qed.

(** * The allocation request *)

(** Objects used as concrete instances below: a 64-bit [size_t] and
    address space, an array of 16 bytes at address 4096. *)
Lemma wf_fresh_16 (d : direction) :
  wf 64 4096 16 (construct 64 4096 16 d).
Proof. apply wf_construct; unfold modulus; lia. Qed.

(** C1: the code does not do what the claim asks for.  [sizeof(int) * n]
    for [n = 2^62 + 1] exceeds the 64-bit range, yet [alloc<int>(n)] on a
    fresh 16-byte arena of either class does not fail: the product is
    reduced to 4, a pointer is returned and 4 bytes are taken. *)
Lemma C1_overflow_not_reported :
  modulus 64 <= 4 * (2 ^ 62 + 1) /\
  allocate 64 4096 16 4 (2 ^ 62 + 1) (construct 64 4096 16 Up) =
    (Some 4096, Upward {| BumpAllocator.next_ := 4100;
                          BumpAllocator.allocations_ := 1 |}) /\
  allocate 64 4096 16 4 (2 ^ 62 + 1) (construct 64 4096 16 Down) =
    (Some 4108, Downward {| BumpDownAllocator.next_ := 4108;
                            BumpDownAllocator.allocations_ := 1 |}).
Proof. split; [unfold modulus; lia | split; reflexivity]. Qed.

(** C2: the code does not do what the claim asks for.  On a fresh 16-byte
    arena [alloc<int>(2^62 - 1)] asks for [2^64 - 4] bytes, a product within
    the [size_t] range and far above the 16 free bytes; the address the
    bound test computes wraps around the address space, the test passes and
    a pointer is returned, with [next_] left outside the array.  The
    overflowing request [alloc<int>(2^62 + 1)] is accepted as well. *)
Lemma C2_large_product_accepted :
  0 < 4 /\ 1 <= 2 ^ 62 - 1 /\ 4 * (2 ^ 62 - 1) < modulus 64 /\
  4 * (2 ^ 62 - 1) > remainingSpace 64 4096 16 (construct 64 4096 16 Up) /\
  allocate 64 4096 16 4 (2 ^ 62 - 1) (construct 64 4096 16 Up) =
    (Some 4096, Upward {| BumpAllocator.next_ := 4092;
                          BumpAllocator.allocations_ := 1 |}) /\
  allocate 64 4096 16 4 (2 ^ 62 - 1) (construct 64 4096 16 Down) =
    (Some 4116, Downward {| BumpDownAllocator.next_ := 4116;
                            BumpDownAllocator.allocations_ := 1 |}) /\
  4 * (2 ^ 62 + 1) > remainingSpace 64 4096 16 (construct 64 4096 16 Up) /\
  fst (allocate 64 4096 16 4 (2 ^ 62 + 1) (construct 64 4096 16 Up)) <> None /\
  fst (allocate 64 4096 16 4 (2 ^ 62 + 1) (construct 64 4096 16 Down))
    <> None.
Proof.
  change (remainingSpace 64 4096 16 (construct 64 4096 16 Up)) with 16.
  repeat split; try (unfold modulus; lia); discriminate.
Qed.

(** C5: the code does not do what the claim asks for.  The successful
    [alloc<int>(2^62 + 1)] on a fresh 16-byte arena lowers the free byte
    count from 16 to 12, by 4 and not by the product [4 * (2^62 + 1)]; the
    successful [alloc<int>(2^62 - 1)], whose product lies within the
    [size_t] range, raises it from 16 to 20. *)
Lemma C5_decrease_is_not_the_product :
  0 < 4 /\ 1 <= 2 ^ 62 + 1 /\ 1 <= 2 ^ 62 - 1 /\
  remainingSpace 64 4096 16 (construct 64 4096 16 Up) = 16 /\
  (exists p x',
     allocate 64 4096 16 4 (2 ^ 62 + 1) (construct 64 4096 16 Up)
       = (Some p, x') /\
     remainingSpace 64 4096 16 x' = 12) /\
  (exists p x',
     allocate 64 4096 16 4 (2 ^ 62 - 1) (construct 64 4096 16 Up)
       = (Some p, x') /\
     remainingSpace 64 4096 16 x' = 20).
Proof.
  split; [lia | split; [lia | split; [lia | split; [reflexivity | ]]]].
  split; eexists; eexists; (split; [reflexivity | reflexivity]).
Qed.

(** * Release *)

(** C8: [dealloc] on an object whose live count is zero returns the object
    as it is: cursor, free byte count and live count are unchanged.  The
    operation is a function on every state; it has no failure result. *)
Theorem C8_release_without_allocations
  (bits : positive) (memory_ N : Z) (x : arena) :
  allocationCount x = 0 ->
  release bits memory_ N x = x /\
  cursor (release bits memory_ N x) = cursor x /\
  remainingSpace bits memory_ N (release bits memory_ N x) =
    remainingSpace bits memory_ N x /\
  allocationCount (release bits memory_ N x) = allocationCount x.
Proof.
  intros K. rewrite (release_zero bits memory_ N x K). auto.
Qed.

Lemma C8_release_without_allocations_witness :
  allocationCount (construct 64 4096 16 Down) = 0 /\
  release 64 4096 16 (construct 64 4096 16 Down) = construct 64 4096 16 Down.
Proof.
  split; [reflexivity | ].
  exact (proj1 (C8_release_without_allocations 64 4096 16
                  (construct 64 4096 16 Down) eq_refl)).
Defined.

(** C3, as stated, fails on a reachable state that already holds a live
    allocation: after [alloc<int>()] on a 16-byte arena, one more successful
    [alloc<int>()] followed by one [dealloc] leaves 8 free bytes where there
    were 12, and a live count of 1. *)
Lemma C3_reset_needs_empty_start :
  let x := run 64 4096 16 [Alloc 4 1] (construct 64 4096 16 Up) in
  reachable 64 4096 16 x /\
  exists x',
    allocs 64 4096 16 [(4, 1)] x = Some x' /\
    remainingSpace 64 4096 16 (releases 64 4096 16 1 x')
      <> remainingSpace 64 4096 16 x /\
    allocationCount (releases 64 4096 16 1 x') <> 0.
Proof.
  cbv zeta. split.
  - exists Up, [Alloc 4 1]. reflexivity.
  - eexists. split; [reflexivity | ]. split; vm_compute; discriminate.
Qed.

(** C3, amended: starting from an empty object (live count zero, cursor at
    its initial position), [k < 2^bits] successful allocations followed by
    exactly [k] calls of [dealloc] give back the starting state: the free
    byte count is what it was and the live count is zero. *)
Theorem C3_bulk_reset
  (bits : positive) (memory_ N : Z) (x x' : arena) (rs : list (Z * Z)) :
  wf bits memory_ N x ->
  Empty bits memory_ N x ->
  Z.of_nat (length rs) < modulus bits ->
  allocs bits memory_ N rs x = Some x' ->
  remainingSpace bits memory_ N (releases bits memory_ N (length rs) x') =
    remainingSpace bits memory_ N x /\
  allocationCount (releases bits memory_ N (length rs) x') = 0 /\
  releases bits memory_ N (length rs) x' = x.
Proof.
  intros H Em B A.
  pose proof (reset_state bits memory_ N rs x x' Em B A) as E.
  rewrite E. split; [reflexivity | split; [apply Em | reflexivity]].
Qed.

Lemma C3_bulk_reset_witness :
  wf 64 4096 100 (construct 64 4096 100 Up) /\
  Empty 64 4096 100 (construct 64 4096 100 Up) /\
  Z.of_nat (length [(4, 1); (8, 1)]) < modulus 64 /\
  allocs 64 4096 100 [(4, 1); (8, 1)] (construct 64 4096 100 Up) =
    Some (Upward {| BumpAllocator.next_ := 4108;
                    BumpAllocator.allocations_ := 2 |}) /\
  remainingSpace 64 4096 100
    (releases 64 4096 100 2
       (Upward {| BumpAllocator.next_ := 4108;
                  BumpAllocator.allocations_ := 2 |})) =
    remainingSpace 64 4096 100 (construct 64 4096 100 Up).
Proof.
  assert (W : wf 64 4096 100 (construct 64 4096 100 Up))
    by (apply wf_construct; unfold modulus; lia).
  assert (B : Z.of_nat (length [(4, 1); (8, 1)]) < modulus 64)
    by (unfold modulus; cbn [length]; lia).
  split; [exact W | split; [apply Empty_construct | split; [exact B | ]]].
  split; [reflexivity | ].
  exact (proj1 (C3_bulk_reset 64 4096 100 (construct 64 4096 100 Up) _
                  [(4, 1); (8, 1)] W (Empty_construct 64 4096 100 Up) B
                  eq_refl)).
Defined.

(** C9: the code does not do what the claim asks for.
    [alloc<double>(2^61)] has [sizeof(T) > 0] and [n >= 1]; its length wraps
    to zero, it succeeds on a fresh 16-byte arena, and with no [dealloc]
    after it the free byte count is still 16.  [alloc<int>(2^62 - 1)]
    succeeds as well and leaves 20 free bytes of 16. *)
Lemma C9_wrapped_length_takes_nothing :
  0 < 8 /\ 1 <= 2 ^ 61 /\
  (exists x',
     allocs 64 4096 16 [(8, 2 ^ 61)] (construct 64 4096 16 Up) = Some x' /\
     (0 < length [(8, 2 ^ 61)])%nat /\
     ~ remainingSpace 64 4096 16 (releases 64 4096 16 0 x') <
         remainingSpace 64 4096 16 (construct 64 4096 16 Up)) /\
  (exists x',
     allocs 64 4096 16 [(4, 2 ^ 62 - 1)] (construct 64 4096 16 Up)
       = Some x' /\
     ~ remainingSpace 64 4096 16 (releases 64 4096 16 0 x') <
         remainingSpace 64 4096 16 (construct 64 4096 16 Up)).
Proof.
  split; [lia | split; [lia | split]].
  - eexists. split; [reflexivity | split; [cbn; lia | ]].
    vm_compute. discriminate.
  - eexists. split; [reflexivity | ]. vm_compute. discriminate.
Qed.

(** * Reachable states *)

(** C4: the code does not do what the claim asks for.  A single call
    [alloc<int>(2^62 - 1)] on a fresh 16-byte arena passes the bound test,
    because the address the test computes wraps around the address space,
    and leaves the cursor 4 bytes below the array in the upward class and 4
    bytes above its end in the downward class. *)
Lemma C4_cursor_leaves_the_array :
  let up := run 64 4096 16 [Alloc 4 (2 ^ 62 - 1)] (construct 64 4096 16 Up) in
  let down :=
    run 64 4096 16 [Alloc 4 (2 ^ 62 - 1)] (construct 64 4096 16 Down) in
  reachable 64 4096 16 up /\ cursor up - 4096 = -4 /\
  reachable 64 4096 16 down /\ cursor down - 4096 = 20.
Proof.
  cbv zeta.
  split; [exists Up; eexists; reflexivity | split; [reflexivity | ]].
  split; [exists Down; eexists; reflexivity | reflexivity].
Qed.

(** * Addresses *)



(** * The two classes compared *)

(** C7, as stated, fails: the two classes do not offer the same operations.
    [BumpDownAllocator] declares its constructor, [alloc] and [dealloc] only;
    it has no [capacity()], [remaining_space()] or [allocations()]. *)
Lemma C7_downward_has_no_accessors :
  declares Up m_capacity = true /\ declares Down m_capacity = false /\
  declares Up m_remaining_space = true /\
  declares Down m_remaining_space = false /\
  declares Up m_allocations = true /\ declares Down m_allocations = false.
Proof. repeat split. Qed.

(** C7, amended: on any sequence of [alloc] and [dealloc] calls made on
    fresh objects of the same capacity, with every request within reach of
    the bound test of both objects, the two classes succeed and fail on the
    same calls, end with the same live count and the same free byte count
    (read from the private fields of the downward object), and return
    mirrored addresses: where the upward arena returns the address [o]
    bytes above the start of its array for a request of [len] bytes, the
    downward arena returns the address [N - o - len] bytes above the start
    of its own. *)
Theorem C7_same_behaviour
  (bits : positive) (memory_up memory_down N : Z) (cs : list call) :
  0 < memory_up -> 0 < memory_down -> 0 <= N ->
  memory_up + N < modulus bits -> memory_down + N < modulus bits ->
  Forall (fun c => reach bits memory_up N Up (length_of bits c) /\
                   reach bits memory_down N Down (length_of bits c)) cs ->
  let up := exec bits memory_up N cs (construct bits memory_up N Up) in
  let down := exec bits memory_down N cs (construct bits memory_down N Down) in
  map succeeded (fst down) = map succeeded (fst up) /\
  fst down = mirror_results bits memory_up memory_down N cs (fst up) /\
  allocationCount (snd down) = allocationCount (snd up) /\
  remainingSpace bits memory_down N (snd down) =
    remainingSpace bits memory_up N (snd up).
Proof.
  intros Hu Hd HN HMu HMd F up down.
  pose proof (wf_construct bits memory_up N Up Hu HN HMu) as Wu.
  pose proof (wf_construct bits memory_down N Down Hd HN HMd) as Wd.
  destruct (mirrored_exec bits memory_up memory_down N cs _ _ Wu Wd
              (mirrored_construct bits memory_up memory_down N HN
                 ltac:(lia) HMd) F) as (R & Wu' & Wd' & M).
  fold up in R, Wu', M. fold down in R, Wd', M.
  destruct (mirrored_obs bits memory_up memory_down N _ _ Wu' Wd' M)
    as (_ & _ & K & _ & S).
  split; [ | split; [exact R | split; [symmetry; exact K | symmetry; exact S]]].
  rewrite R. apply succeeded_mirror_results. apply exec_length.
Qed.

Lemma C7_same_behaviour_witness :
  let cs := [Alloc 4 3; Alloc 8 1; Dealloc; Alloc 1 2; Dealloc; Dealloc] in
  0 < 4096 /\ 0 < 8192 /\ 0 <= 16 /\
  4096 + 16 < modulus 64 /\ 8192 + 16 < modulus 64 /\
  Forall (fun c => reach 64 4096 16 Up (length_of 64 c) /\
                   reach 64 8192 16 Down (length_of 64 c)) cs /\
  map succeeded (fst (exec 64 8192 16 cs (construct 64 8192 16 Down))) =
    map succeeded (fst (exec 64 4096 16 cs (construct 64 4096 16 Up))).
Proof.
  cbv zeta.
  assert (Hu : 0 < 4096) by lia.
  assert (Hd : 0 < 8192) by lia.
  assert (HN : 0 <= 16) by lia.
  assert (HMu : 4096 + 16 < modulus 64) by (unfold modulus; lia).
  assert (HMd : 8192 + 16 < modulus 64) by (unfold modulus; lia).
  assert (F : Forall (fun c => reach 64 4096 16 Up (length_of 64 c) /\
                               reach 64 8192 16 Down (length_of 64 c))
                [Alloc 4 3; Alloc 8 1; Dealloc; Alloc 1 2; Dealloc; Dealloc])
    by (repeat constructor; vm_compute; congruence).
  split; [exact Hu | split; [exact Hd | split; [exact HN | ]]].
  split; [exact HMu | split; [exact HMd | split; [exact F | ]]].
  exact (proj1 (C7_same_behaviour 64 4096 8192 16 _ Hu Hd HN HMu HMd F)).
Defined.

(** * Requests of zero elements *)

(** C10, as stated, fails on the one state whose counter is at its maximum:
    [++allocations_] wraps to zero, so the live count is not positive after
    the call.  Such a state is reached by [2^64 - 1] calls [alloc<char>(0)]
    on a fresh object. *)
Lemma C10_counter_at_maximum :
  let x := run 64 4096 16 (repeat (Alloc 1 0) (Z.to_nat (2 ^ 64 - 1)))
             (construct 64 4096 16 Up) in
  reachable 64 4096 16 x /\
  0 <= remainingSpace 64 4096 16 x /\
  allocationCount x = 2 ^ 64 - 1 /\
  allocationCount (snd (allocate 64 4096 16 1 0 x)) = 0.
Proof.
  cbv zeta. split; [exists Up; eexists; reflexivity | ].
  pose proof (wf_fresh_16 Up) as W0.
  destruct (run_zero_lengths 64 4096 16 (Z.to_nat (2 ^ 64 - 1)) _ W0)
    as (W & _ & K).
  rewrite Z2Nat.id in K by lia.
  change (wrap 64 (allocationCount (construct 64 4096 16 Up) + (2 ^ 64 - 1)))
    with (2 ^ 64 - 1) in K.
  revert K W.
  generalize (run 64 4096 16 (repeat (Alloc 1 0) (Z.to_nat (2 ^ 64 - 1)))
                (construct 64 4096 16 Up)).
  intros x K W.
  pose proof (remainingSpace_range 64 4096 16 x W) as Hr.
  split; [lia | split; [exact K | ]].
  destruct (allocate_fit 64 4096 16 1 0 x W)
    as (x' & E & _ & _ & _ & _ & K').
  - change (alloc_size 64 1 0) with 0. lia.
  - rewrite E. cbn [snd]. rewrite K', K. reflexivity.
Qed.

(** C10, amended: on every state with the cursor inside the array, [alloc]
    with [n = 0] succeeds; it returns the non-null pointer at the current
    cursor position and leaves the cursor and the free byte count
    unchanged.  The live count becomes the old count
    plus one modulo [2^bits]: whenever the counter was below its maximum, it
    is incremented by one and is positive afterwards, with no byte
    consumed. *)
Theorem C10_zero_count_succeeds
  (bits : positive) (memory_ N : Z) (x : arena) (sizeofT : Z) :
  wf bits memory_ N x ->
  exists x',
    allocate bits memory_ N sizeofT 0 x = (Some (cursor x), x') /\
    cursor x' = cursor x /\
    remainingSpace bits memory_ N x' = remainingSpace bits memory_ N x /\
    allocationCount x' = (allocationCount x + 1) mod modulus bits /\
    (allocationCount x < modulus bits - 1 ->
     allocationCount x' = allocationCount x + 1 /\ 0 < allocationCount x').
Proof.
  intros H.
  assert (S0 : alloc_size bits sizeofT 0 = 0).
  { unfold alloc_size. rewrite Z.mul_0_r. apply wrap_small.
    pose proof (modulus_pos bits). lia. }
  pose proof (remainingSpace_range bits memory_ N x H) as Hr.
  destruct (allocate_fit bits memory_ N sizeofT 0 x H ltac:(lia))
    as (x' & E & _ & _ & C & R & K).
  rewrite S0 in E, C, R. exists x'.
  pose proof H as (_ & _ & _ & _ & Hk).
  split; [ | split; [ | split; [lia | split; [exact K | ]]]].
  - rewrite E. destruct (direction_of x); rewrite ?Z.sub_0_r; reflexivity.
  - rewrite C. destruct (direction_of x); lia.
  - intros B. rewrite K, wrap_succ by lia. lia.
Qed.

Lemma C10_zero_count_succeeds_witness :
  wf 64 4096 16 (construct 64 4096 16 Up) /\
  exists x',
    allocate 64 4096 16 4 0 (construct 64 4096 16 Up)
      = (Some (cursor (construct 64 4096 16 Up)), x') /\
    cursor x' = cursor (construct 64 4096 16 Up) /\
    remainingSpace 64 4096 16 x'
      = remainingSpace 64 4096 16 (construct 64 4096 16 Up) /\
    allocationCount x' =
      (allocationCount (construct 64 4096 16 Up) + 1) mod modulus 64 /\
    (allocationCount (construct 64 4096 16 Up) < modulus 64 - 1 ->
     allocationCount x' = allocationCount (construct 64 4096 16 Up) + 1 /\
     0 < allocationCount x').
Proof.
  split; [apply wf_fresh_16 | ].
  exact (C10_zero_count_succeeds 64 4096 16 (construct 64 4096 16 Up) 4
           (wf_fresh_16 Up)).
Defined.

(** * Further properties of the two allocators *)

Section Batches.
Variable bits : positive.
Variable memory_ : Z.
Variable N : Z.

(** What [dealloc] does to the cursor, by the test [resets]. *)
Lemma release_cursor (x : arena) :
  direction_of (release bits memory_ N x) = direction_of x /\
  cursor (release bits memory_ N x) =
    (if resets bits x then initial_cursor bits memory_ N x else cursor x).
Proof.
  unfold resets.
  destruct x as [[c k] | [c k]]; arena_unfold;
    destruct (Z.gtb_spec k 0); cbn [andb]; auto;
    destruct (Z.eqb_spec (wrap bits (k - 1)) 0); cbn; auto.
Qed.

(** The [i]-th allocation of a batch that fits starts where the ones before
    it end. *)
Lemma batch_offsets (rs : list (Z * Z)) :
  forall (x : arena) (i : nat) (sizeofT n : Z),
    wf bits memory_ N x ->
    total_length bits rs <= remainingSpace bits memory_ N x ->
    nth_error rs i = Some (sizeofT, n) ->
    nth_error (fst (exec bits memory_ N (request_calls rs) x)) i =
      Some (Returned (Some
        match direction_of x with
        | Up => cursor x + total_length bits (firstn i rs)
        | Down => cursor x - total_length bits (firstn i rs)
                  - alloc_size bits sizeofT n
        end)).
Proof.
  induction rs as [ | [s1 n1] rs IH]; intros x i sizeofT n H L E.
  - destruct i; discriminate.
  - cbn [total_length] in L.
    pose proof (total_length_nonneg bits rs) as T.
    destruct (allocate_fit bits memory_ N s1 n1 x H ltac:(lia))
      as (x1 & A & W & D & C & R & _).
    cbn [request_calls map fst snd]. rewrite exec_cons. cbn [fst step].
    rewrite A. cbn [fst snd].
    destruct i as [ | i].
    + cbn in E. inversion E; subst. cbn [nth_error firstn total_length].
      do 3 f_equal. destruct (direction_of x); lia.
    + cbn [nth_error] in E |- *.
      fold (request_calls rs).
      rewrite (IH x1 i sizeofT n W ltac:(lia) E). rewrite D, C.
      cbn [firstn total_length]. do 3 f_equal.
      destruct (direction_of x); lia.
Qed.
End Batches.

(** X1: a batch of requests within reach of the bound test, made one after
    the other, succeeds as a whole exactly when the byte lengths [alloc]
    computes for them add up to no more than the free byte count: nothing
    is lost to padding or bookkeeping. *)
Theorem X1_batch_succeeds_iff
  (bits : positive) (memory_ N : Z) (x : arena) (rs : list (Z * Z)) :
  wf bits memory_ N x ->
  Forall (fun r => reach bits memory_ N (direction_of x)
                     (alloc_size bits (fst r) (snd r))) rs ->
  ((exists x', allocs bits memory_ N rs x = Some x') <->
   total_length bits rs <= remainingSpace bits memory_ N x).
Proof.
  intros H F. split.
  - intros (x' & A). exact (allocs_within_reach bits memory_ N rs x x' H F A).
  - intros L. destruct (allocs_fit bits memory_ N rs x H L) as (x' & A & _).
    exists x'. exact A.
Qed.

Lemma X1_batch_succeeds_iff_witness :
  wf 64 4096 16 (construct 64 4096 16 Down) /\
  Forall (fun r => reach 64 4096 16 Down (alloc_size 64 (fst r) (snd r)))
    [(4, 2); (8, 1)] /\
  ((exists x', allocs 64 4096 16 [(4, 2); (8, 1)] (construct 64 4096 16 Down)
                 = Some x') <->
   total_length 64 [(4, 2); (8, 1)]
     <= remainingSpace 64 4096 16 (construct 64 4096 16 Down)).
Proof.
  assert (F : Forall (fun r => reach 64 4096 16 Down
                                 (alloc_size 64 (fst r) (snd r)))
                [(4, 2); (8, 1)])
    by (repeat constructor; vm_compute; discriminate).
  split; [apply wf_fresh_16 | split; [exact F | ]].
  exact (X1_batch_succeeds_iff 64 4096 16 (construct 64 4096 16 Down)
           [(4, 2); (8, 1)] (wf_fresh_16 Down) F).
Defined.



Section LiveRegions.
Variable bits : positive.
Variable memory_ : Z.
Variable N : Z.

Lemma used_span (x : arena) :
  wf bits memory_ N x ->
  used_to memory_ N x - used_from memory_ x =
    N - remainingSpace bits memory_ N x.
Proof.
  intros H. rewrite (remainingSpace_wf bits memory_ N x H).
  destruct x; unfold used_to, used_from; lia.
Qed.

(** The regions recorded for a state: all inside the used part of the
    array, pairwise disjoint, and filling it. *)
Lemma live_regions_inv (cs : list call) :
  forall (x : arena) (acc : list region),
    wf bits memory_ N x ->
    Forall (fun c => reach bits memory_ N (direction_of x)
                       (length_of bits c)) cs ->
    Forall (fun r => used_from memory_ x <= fst r /\ 0 <= snd r /\
                     fst r + snd r <= used_to memory_ N x) acc ->
    ForallOrdPairs disjoint acc ->
    sum_lengths acc = used_to memory_ N x - used_from memory_ x ->
    let x' := run bits memory_ N cs x in
    let regs := live_regions bits memory_ N cs x acc in
    Forall (fun r => used_from memory_ x' <= fst r /\ 0 <= snd r /\
                     fst r + snd r <= used_to memory_ N x') regs /\
    ForallOrdPairs disjoint regs /\
    sum_lengths regs = used_to memory_ N x' - used_from memory_ x'.
Proof.
  induction cs as [ | c cs IH]; intros x acc H F B D S.
  - cbv zeta. rewrite run_nil. cbn [live_regions]. auto.
  - cbv zeta. rewrite run_cons. cbn [live_regions].
    inversion F as [ | c' l Fc Fl]; subst.
    destruct (wf_step bits memory_ N c x H Fc) as (W & Dx).
    rewrite <- Dx in Fl.
    destruct c as [sizeofT n | ].
    + cbn [length_of] in Fc. cbn [step] in *.
      pose proof (alloc_size_range bits sizeofT n) as Hs.
      destruct (Z_lt_le_dec (remainingSpace bits memory_ N x)
                  (alloc_size bits sizeofT n)) as [Short | Fit].
      * rewrite (allocate_reach_fails bits memory_ N sizeofT n x H Fc Short)
          in *.
        cbn [snd] in *. apply IH; assumption.
      * destruct (allocate_fit bits memory_ N sizeofT n x H Fit)
          as (x1 & A & W1 & D1 & C1 & R1 & _).
        rewrite A in *. cbn [snd] in *.
        pose proof (used_span x H) as U. pose proof (used_span x1 W1) as U1.
        pose proof (remainingSpace_range bits memory_ N x H) as Hx.
        pose proof (remainingSpace_range bits memory_ N x1 W1) as Hx1.
        assert (G : used_from memory_ x1 <= used_from memory_ x /\
                    used_to memory_ N x <= used_to memory_ N x1 /\
                    match direction_of x with
                    | Up => cursor x = used_to memory_ N x /\
                            used_to memory_ N x1 =
                              cursor x + alloc_size bits sizeofT n
                    | Down => cursor x = used_from memory_ x /\
                              used_from memory_ x1 =
                                cursor x - alloc_size bits sizeofT n
                    end).
        { clear IH B D S W Fl Dx A U U1 Hx Hx1. revert D1 C1.
          destruct x as [a | a], x1 as [a1 | a1];
            unfold used_from, used_to, direction_of, cursor;
            intros D1 C1; try discriminate; lia. }
        destruct G as (G1 & G2 & G3).
        apply IH; [exact W | exact Fl | | | ].
        -- constructor;
             [cbn [fst snd]; destruct (direction_of x); lia | ].
           eapply Forall_impl; [ | exact B]. cbn beta. intros r. lia.
        -- constructor; [ | exact D].
           eapply Forall_impl; [ | exact B]. cbn beta. intros r Hr.
           unfold disjoint. cbn [fst snd]. destruct (direction_of x); lia.
        -- cbn [sum_lengths snd]. lia.
    + cbn [step snd] in *.
      destruct (release_cursor bits memory_ N x) as (Dr & Cr).
      pose proof H as (Hm & HN & HM & _).
      destruct (resets bits x) eqn:R; cbv iota in Cr.
      * assert (G : used_to memory_ N (release bits memory_ N x)
                    - used_from memory_ (release bits memory_ N x) = 0).
        { revert Dr Cr.
          destruct x as [a | a], (release bits memory_ N _) as [b | b];
            unfold used_to, used_from, direction_of, cursor, initial_cursor;
            rewrite ?wrap_small by lia;
            intros Dr Cr; try discriminate; lia. }
        apply IH; [exact W | exact Fl | constructor | constructor | ].
        cbn [sum_lengths]. lia.
      * assert (G : used_from memory_ (release bits memory_ N x)
                      = used_from memory_ x /\
                    used_to memory_ N (release bits memory_ N x)
                      = used_to memory_ N x).
        { revert Dr Cr.
          destruct x as [a | a], (release bits memory_ N _) as [b | b];
            unfold used_to, used_from, direction_of, cursor;
            intros Dr Cr; try discriminate; lia. }
        destruct G as (G1 & G2).
        apply IH; [exact W | exact Fl | | exact D | lia].
        eapply Forall_impl; [ | exact B]. cbn beta. intros r. lia.
Qed.
End LiveRegions.

(** X3: memory safety of the hand-out, for requests within reach of the
    bound test.  At any point of a run of such requests and of [dealloc]s on
    a fresh arena, the regions returned by the successful [alloc]s since the
    cursor was last reset lie inside [memory_], no two of them share a byte,
    and their lengths add up to the capacity minus the free byte count.  A
    [dealloc] that does not reset the cursor takes no region out of this
    set: nothing is handed out twice before the reset. *)
Theorem X3_live_regions_disjoint
  (bits : positive) (memory_ N : Z) (d : direction) (cs : list call) :
  0 < memory_ -> 0 <= N -> memory_ + N < modulus bits ->
  Forall (fun c => reach bits memory_ N d (length_of bits c)) cs ->
  let regs :=
    live_regions bits memory_ N cs (construct bits memory_ N d) [] in
  Forall (in_bounds memory_ N) regs /\
  ForallOrdPairs disjoint regs /\
  sum_lengths regs =
    N - remainingSpace bits memory_ N
          (run bits memory_ N cs (construct bits memory_ N d)).
Proof.
  intros Hm HN HM F regs.
  pose proof (wf_construct bits memory_ N d Hm HN HM) as W0.
  assert (D0 : direction_of (construct bits memory_ N d) = d)
    by (destruct d; reflexivity).
  rewrite <- D0 in F.
  destruct (wf_run bits memory_ N cs _ W0 F) as (W & _).
  assert (S0 : sum_lengths [] =
               used_to memory_ N (construct bits memory_ N d)
               - used_from memory_ (construct bits memory_ N d)).
  { destruct d; cbn; unfold BumpDownAllocator.init; cbn;
      rewrite ?wrap_small by lia; lia. }
  destruct (live_regions_inv bits memory_ N cs _ [] W0 F
              (Forall_nil _) (FOP_nil _) S0) as (B & D & S).
  fold regs in B, D, S.
  split; [ | split; [exact D | ]].
  - eapply Forall_impl; [ | exact B]. cbn beta. intros r Hr.
    pose proof W as (_ & _ & _ & Hc & _). unfold in_bounds.
    revert Hr Hc.
    generalize (run bits memory_ N cs (construct bits memory_ N d)).
    intros [a | a]; unfold used_from, used_to, cursor; lia.
  - rewrite S. apply used_span. exact W.
Qed.

Lemma X3_live_regions_disjoint_witness :
  let cs := [Alloc 4 1; Alloc 1 3; Dealloc; Alloc 8 1] in
  0 < 4096 /\ 0 <= 16 /\ 4096 + 16 < modulus 64 /\
  Forall (fun c => reach 64 4096 16 Down (length_of 64 c)) cs /\
  ForallOrdPairs disjoint
    (live_regions 64 4096 16 cs (construct 64 4096 16 Down) []).
Proof.
  cbv zeta.
  assert (Hm : 0 < 4096) by lia.
  assert (HN : 0 <= 16) by lia.
  assert (HM : 4096 + 16 < modulus 64) by (unfold modulus; lia).
  assert (F : Forall (fun c => reach 64 4096 16 Down (length_of 64 c))
                [Alloc 4 1; Alloc 1 3; Dealloc; Alloc 8 1])
    by (repeat constructor; vm_compute; discriminate).
  split; [exact Hm | split; [exact HN | split; [exact HM | ]]].
  split; [exact F | ].
  exact (proj1 (proj2 (X3_live_regions_disjoint 64 4096 16 Down _
                         Hm HN HM F))).
Defined.

(** X4: the bound is inclusive.  A request whose length equals the free
    byte count succeeds and leaves no free byte; on the full arena every
    request of non-zero length within reach of the bound test then fails. *)
Theorem X4_exact_fit
  (bits : positive) (memory_ N : Z) (x : arena) (sizeofT n : Z) :
  wf bits memory_ N x ->
  alloc_size bits sizeofT n = remainingSpace bits memory_ N x ->
  exists p x',
    allocate bits memory_ N sizeofT n x = (Some p, x') /\
    remainingSpace bits memory_ N x' = 0 /\
    forall sizeofT' n',
      alloc_size bits sizeofT' n' <> 0 ->
      reach bits memory_ N (direction_of x) (alloc_size bits sizeofT' n') ->
      fst (allocate bits memory_ N sizeofT' n' x') = None.
Proof.
  intros H E.
  destruct (allocate_fit bits memory_ N sizeofT n x H ltac:(lia))
    as (x' & A & W & D & _ & R & _).
  eexists. exists x'. split; [exact A | split; [lia | ]].
  intros s' n' NZ Rc. rewrite <- D in Rc.
  rewrite (allocate_reach_fails bits memory_ N s' n' x' W Rc); [reflexivity | ].
  pose proof (alloc_size_range bits s' n'). lia.
Qed.

Lemma X4_exact_fit_witness :
  wf 64 4096 16 (construct 64 4096 16 Up) /\
  alloc_size 64 4 4 = remainingSpace 64 4096 16 (construct 64 4096 16 Up) /\
  exists p x',
    allocate 64 4096 16 4 4 (construct 64 4096 16 Up) = (Some p, x') /\
    remainingSpace 64 4096 16 x' = 0 /\
    forall sizeofT' n',
      alloc_size 64 sizeofT' n' <> 0 ->
      reach 64 4096 16 Up (alloc_size 64 sizeofT' n') ->
      fst (allocate 64 4096 16 sizeofT' n' x') = None.
Proof.
  split; [apply wf_fresh_16 | split; [reflexivity | ]].
  exact (X4_exact_fit 64 4096 16 (construct 64 4096 16 Up) 4 4
           (wf_fresh_16 Up) eq_refl).
Defined.

(** X5: [dealloc] gives nothing back while other allocations are live.
    With more than one live allocation, a [dealloc] leaves the free byte
    count as it is, and the next [alloc] succeeds or fails, and returns the
    address, exactly as it would have without the [dealloc]. *)
Theorem X5_release_keeps_the_bytes
  (bits : positive) (memory_ N : Z) (x : arena) (sizeofT n : Z) :
  wf bits memory_ N x ->
  1 < allocationCount x ->
  remainingSpace bits memory_ N (release bits memory_ N x) =
    remainingSpace bits memory_ N x /\
  fst (allocate bits memory_ N sizeofT n (release bits memory_ N x)) =
    fst (allocate bits memory_ N sizeofT n x).
Proof.
  intros H L. pose proof H as (_ & _ & _ & _ & Hk).
  destruct (release_more bits memory_ N x ltac:(lia)) as (_ & C & D).
  pose proof (wf_release bits memory_ N x H) as W.
  split; [apply remainingSpace_cursor; assumption | ].
  revert C D. generalize (release bits memory_ N x).
  intros y C D.
  destruct x as [a | a], y as [b | b]; try discriminate;
    arena_unfold; rewrite C; cases_on_tests; reflexivity.
Qed.

Lemma X5_release_keeps_the_bytes_witness :
  let x := Upward {| BumpAllocator.next_ := 4108;
                     BumpAllocator.allocations_ := 2 |} in
  wf 64 4096 16 x /\ 1 < allocationCount x /\
  remainingSpace 64 4096 16 (release 64 4096 16 x)
    = remainingSpace 64 4096 16 x /\
  fst (allocate 64 4096 16 4 1 (release 64 4096 16 x))
    = fst (allocate 64 4096 16 4 1 x).
Proof.
  cbv zeta.
  assert (W : wf 64 4096 16 (Upward {| BumpAllocator.next_ := 4108;
                                       BumpAllocator.allocations_ := 2 |}))
    by (arena_unfold; unfold modulus; lia).
  assert (L : 1 < allocationCount
                    (Upward {| BumpAllocator.next_ := 4108;
                               BumpAllocator.allocations_ := 2 |}))
    by (cbn; lia).
  split; [exact W | split; [exact L | ]].
  exact (X5_release_keeps_the_bytes 64 4096 16 _ 4 1 W L).
Defined.

Section RepeatedRequests.
Variable bits : positive.
Variable memory_ : Z.
Variable N : Z.

(** The same request made [m] times in a row: the first
    [remainingSpace / length] calls succeed, all later ones fail. *)
Lemma repeat_alloc (sizeofT n : Z) (m : nat) :
  forall x : arena,
    wf bits memory_ N x ->
    reach bits memory_ N (direction_of x) (alloc_size bits sizeofT n) ->
    0 < alloc_size bits sizeofT n ->
    map succeeded
      (fst (exec bits memory_ N (repeat (Alloc sizeofT n) m) x)) =
      map (fun i => Z.of_nat i <?
                    remainingSpace bits memory_ N x
                    / alloc_size bits sizeofT n)
        (seq 0 m) /\
    remainingSpace bits memory_ N
      (snd (exec bits memory_ N (repeat (Alloc sizeofT n) m) x)) =
      remainingSpace bits memory_ N x
      - alloc_size bits sizeofT n
        * Z.min (Z.of_nat m)
            (remainingSpace bits memory_ N x / alloc_size bits sizeofT n).
Proof.
  remember (alloc_size bits sizeofT n) as L eqn:EL.
  induction m as [ | m IH]; intros x H Rc HL.
  - cbn. split; [reflexivity | ].
    pose proof (remainingSpace_range bits memory_ N x H) as Hr.
    assert (0 <= remainingSpace bits memory_ N x / L)
      by (apply Z.div_pos; lia).
    rewrite Z.min_l by lia. lia.
  - cbn [repeat]. rewrite exec_cons. cbn [fst snd map seq].
    rewrite <- seq_shift, map_map.
    pose proof (remainingSpace_range bits memory_ N x H) as Hr.
    cbn [step].
    destruct (allocate bits memory_ N sizeofT n x) as [r x1] eqn:A.
    cbn [fst snd].
    assert (Rc' : reach bits memory_ N (direction_of x)
                    (alloc_size bits sizeofT n)) by (rewrite <- EL; exact Rc).
    destruct (allocate_obs bits memory_ N sizeofT n x x1 r H Rc' A)
      as (W & Dx & [(-> & -> & F) | (p & -> & F & R & _)]);
      rewrite <- EL in *.
    + destruct (IH x H Rc HL) as (IH1 & IH2). rewrite IH1, IH2.
      assert (Q : remainingSpace bits memory_ N x / L = 0)
        by (apply Z.div_small; lia).
      rewrite Q. split.
      * cbn [succeeded]. f_equal. apply map_ext. intros i.
        destruct (Z.ltb_spec (Z.of_nat i) 0), (Z.ltb_spec (Z.of_nat (S i)) 0);
          lia || reflexivity.
      * rewrite !Z.min_r by lia. reflexivity.
    + rewrite <- Dx in Rc.
      destruct (IH x1 W Rc HL) as (IH1 & IH2). rewrite IH1, IH2, R.
      assert (Q : (remainingSpace bits memory_ N x - L) / L =
                  remainingSpace bits memory_ N x / L - 1).
      { replace (remainingSpace bits memory_ N x - L)
          with (remainingSpace bits memory_ N x + (-1) * L) by ring.
        rewrite Z.div_add by lia. ring. }
      rewrite Q.
      assert (Q1 : 1 <= remainingSpace bits memory_ N x / L).
      { apply Z.div_le_lower_bound; lia. }
      split.
      * cbn [succeeded]. f_equal.
        -- symmetry. apply Z.ltb_lt. cbn. lia.
        -- apply map_ext. intros i.
           destruct (Z.ltb_spec (Z.of_nat i)
                       (remainingSpace bits memory_ N x / L - 1)),
             (Z.ltb_spec (Z.of_nat (S i))
                (remainingSpace bits memory_ N x / L));
             lia || reflexivity.
      * rewrite Nat2Z.inj_succ.
        destruct (Z.min_spec (Z.of_nat m)
                    (remainingSpace bits memory_ N x / L - 1))
          as [(? & ->) | (? & ->)];
          destruct (Z.min_spec (Z.succ (Z.of_nat m))
                      (remainingSpace bits memory_ N x / L))
            as [(? & ->) | (? & ->)]; try lia; ring.
Qed.

(** With requests of non-zero length within reach only, the live count
    never exceeds the number of bytes in use. *)
Lemma run_count_bound (cs : list call) :
  forall x : arena,
    wf bits memory_ N x ->
    Forall (fun c => reach bits memory_ N (direction_of x)
                       (length_of bits c)) cs ->
    allocationCount x <= N - remainingSpace bits memory_ N x ->
    forallb (fun c => negb (zero_length bits c)) cs = true ->
    allocationCount (run bits memory_ N cs x)
      <= N - remainingSpace bits memory_ N (run bits memory_ N cs x).
Proof.
  induction cs as [ | c cs IH]; intros x H Fr Hb F.
  - rewrite run_nil. exact Hb.
  - rewrite run_cons. cbn [forallb] in F.
    apply andb_true_iff in F as (Fc & F).
    inversion Fr as [ | c' l Rc Rl]; subst.
    destruct (wf_step bits memory_ N c x H Rc) as (W & Dx).
    rewrite <- Dx in Rl.
    pose proof H as (Hm & HN & HM & _ & Hk).
    pose proof (remainingSpace_range bits memory_ N x H) as Hr.
    apply (IH _ W Rl); [ | exact F]. destruct c as [sizeofT n | ].
    + rewrite step_alloc. cbn [length_of] in Rc.
      destruct (allocate bits memory_ N sizeofT n x) as [r x'] eqn:E.
      cbn [snd].
      destruct (allocate_obs bits memory_ N sizeofT n x x' r H Rc E)
        as (_ & _ & [(_ & -> & _) | (p & _ & L & R & K)]); [exact Hb | ].
      cbn [zero_length] in Fc. apply negb_true_iff in Fc.
      apply Z.eqb_neq in Fc.
      pose proof (alloc_size_range bits sizeofT n).
      rewrite wrap_succ in K by lia. lia.
    + rewrite step_dealloc.
      destruct (release_obs bits memory_ N x H)
        as (_ & _ & [(_ & ->) | [(_ & K & R) | (_ & K & R)]]); lia.
Qed.
End RepeatedRequests.

(** X6: capacity in elements.  When the same request, of non-zero length
    within reach of the bound test, is made over and over, call number [i]
    (counting from 0) succeeds exactly when [i] is below the quotient of the
    free byte count by the length, and the free byte count ends lowered by
    the length times the number of successful calls. *)
Theorem X6_repeated_request
  (bits : positive) (memory_ N : Z) (x : arena) (sizeofT n : Z) (m : nat) :
  wf bits memory_ N x ->
  reach bits memory_ N (direction_of x) (alloc_size bits sizeofT n) ->
  0 < alloc_size bits sizeofT n ->
  map succeeded (fst (exec bits memory_ N (repeat (Alloc sizeofT n) m) x)) =
    map (fun i => Z.of_nat i <?
                  remainingSpace bits memory_ N x / alloc_size bits sizeofT n)
      (seq 0 m) /\
  remainingSpace bits memory_ N
    (snd (exec bits memory_ N (repeat (Alloc sizeofT n) m) x)) =
    remainingSpace bits memory_ N x
    - alloc_size bits sizeofT n
      * Z.min (Z.of_nat m)
          (remainingSpace bits memory_ N x / alloc_size bits sizeofT n).
Proof. intros H Rc L. apply repeat_alloc; assumption. Qed.

Lemma X6_repeated_request_witness :
  wf 64 4096 16 (construct 64 4096 16 Down) /\
  reach 64 4096 16 Down (alloc_size 64 4 1) /\
  0 < alloc_size 64 4 1 /\
  map succeeded (fst (exec 64 4096 16 (repeat (Alloc 4 1) 6)
                        (construct 64 4096 16 Down))) =
    map (fun i => Z.of_nat i <?
                  remainingSpace 64 4096 16 (construct 64 4096 16 Down)
                  / alloc_size 64 4 1)
      (seq 0 6).
Proof.
  assert (Rc : reach 64 4096 16 Down (alloc_size 64 4 1))
    by (vm_compute; discriminate).
  assert (L : 0 < alloc_size 64 4 1) by reflexivity.
  split; [apply wf_fresh_16 | split; [exact Rc | split; [exact L | ]]].
  exact (proj1 (X6_repeated_request 64 4096 16 (construct 64 4096 16 Down)
                  4 1 6 (wf_fresh_16 Down) Rc L)).
Defined.

(** * The benchmark workloads of task3.cpp *)

Lemma wf_heap (bits : positive) (memory_ : Z) (d : direction) :
  0 < memory_ -> memory_ + HEAP_SIZE < modulus bits ->
  wf bits memory_ HEAP_SIZE (construct bits memory_ HEAP_SIZE d).
Proof.
  intros Hm B. apply wf_construct; [exact Hm | unfold HEAP_SIZE; lia | exact B].
Qed.

(** X7: for a heap lying at least [ALLOC_SIZE] bytes away from the end of
    the address space it grows towards, so that the bound test of the
    benchmark requests does not wrap: in
    [benchmark_small_allocations(count)] exactly the first [HEAP_SIZE] calls
    [alloc<char>()] return a pointer, and in
    [benchmark_large_allocations(count)] exactly the first
    [HEAP_SIZE / ALLOC_SIZE = 1024] calls [alloc<char>(ALLOC_SIZE)]; later
    iterations get [nullptr] (and skip the store).  The two directions
    behave alike.  With the counts [main] passes, 10000 and 100, no call
    fails. *)
Theorem X7_benchmark_loops
  (bits : positive) (memory_ : Z) (d : direction) (count : nat) :
  0 < memory_ ->
  memory_ + HEAP_SIZE < modulus bits ->
  reach bits memory_ HEAP_SIZE d ALLOC_SIZE ->
  map succeeded (fst (small_allocations bits memory_ d count)) =
    map (fun i => Z.of_nat i <? HEAP_SIZE) (seq 0 count) /\
  map succeeded (fst (large_allocations bits memory_ d count)) =
    map (fun i => Z.of_nat i <? 1024) (seq 0 count) /\
  remainingSpace bits memory_ HEAP_SIZE
    (snd (small_allocations bits memory_ d count)) =
    HEAP_SIZE - Z.min (Z.of_nat count) HEAP_SIZE /\
  remainingSpace bits memory_ HEAP_SIZE
    (snd (large_allocations bits memory_ d count)) =
    HEAP_SIZE - ALLOC_SIZE * Z.min (Z.of_nat count) 1024.
Proof.
  intros Hm B Rc. pose proof (wf_heap bits memory_ d Hm B) as W.
  assert (R : remainingSpace bits memory_ HEAP_SIZE
                (construct bits memory_ HEAP_SIZE d) = HEAP_SIZE).
  { apply remainingSpace_Empty; [exact W | apply Empty_construct]. }
  assert (D0 : direction_of (construct bits memory_ HEAP_SIZE d) = d)
    by (destruct d; reflexivity).
  assert (S1 : alloc_size bits 1 1 = 1)
    by (apply alloc_size_exact; unfold HEAP_SIZE in B; lia).
  assert (S2 : alloc_size bits 1 ALLOC_SIZE = ALLOC_SIZE)
    by (apply alloc_size_exact; unfold HEAP_SIZE, ALLOC_SIZE in *; lia).
  assert (Rc1 : reach bits memory_ HEAP_SIZE d 1)
    by (destruct d; unfold reach, ALLOC_SIZE in *; lia).
  unfold small_allocations, large_allocations.
  destruct (repeat_alloc bits memory_ HEAP_SIZE 1 1 count _ W
              ltac:(rewrite D0, S1; exact Rc1) ltac:(lia)) as (A1 & A2).
  destruct (repeat_alloc bits memory_ HEAP_SIZE 1 ALLOC_SIZE count _ W
              ltac:(rewrite D0, S2; exact Rc)
              ltac:(rewrite S2; reflexivity)) as (B1 & B2).
  rewrite S1, R in A1, A2. rewrite S2, R in B1, B2.
  rewrite Z.div_1_r in A1, A2.
  change (HEAP_SIZE / ALLOC_SIZE) with 1024 in B1, B2.
  rewrite A1, A2, B1, B2. repeat split; lia.
Qed.

Lemma X7_benchmark_loops_witness :
  0 < 4096 /\ 4096 + HEAP_SIZE < modulus 64 /\
  reach 64 4096 HEAP_SIZE Up ALLOC_SIZE /\
  map succeeded (fst (large_allocations 64 4096 Up 100)) =
    map (fun i => Z.of_nat i <? 1024) (seq 0 100).
Proof.
  assert (Hm : 0 < 4096) by lia.
  assert (B : 4096 + HEAP_SIZE < modulus 64)
    by (unfold modulus, HEAP_SIZE; lia).
  assert (Rc : reach 64 4096 HEAP_SIZE Up ALLOC_SIZE)
    by (unfold reach, modulus, HEAP_SIZE, ALLOC_SIZE; lia).
  split; [exact Hm | split; [exact B | split; [exact Rc | ]]].
  exact (proj1 (proj2 (X7_benchmark_loops 64 4096 Up 100 Hm B Rc))).
Defined.

(** * Reset and reuse *)

(** X8: a reset hands the same bytes out again.  On an empty arena, after a
    batch of fewer than [2^bits] calls that all returned a pointer and as
    many [dealloc]s as the batch has calls, the region of the next
    allocation overlaps the region of the first allocation of the batch,
    whenever both have a non-zero length that is no more than the capacity:
    a pointer kept from before the reset then aliases the new allocation. *)
Theorem X8_reuse_after_reset
  (bits : positive) (memory_ N : Z) (x y1 x' y : arena) (rs : list (Z * Z))
  (sizeofT1 n1 p1 sizeofT n q : Z) :
  wf bits memory_ N x ->
  Empty bits memory_ N x ->
  allocate bits memory_ N sizeofT1 n1 x = (Some p1, y1) ->
  allocs bits memory_ N rs y1 = Some x' ->
  Z.of_nat (S (length rs)) < modulus bits ->
  allocate bits memory_ N sizeofT n
    (releases bits memory_ N (S (length rs)) x') = (Some q, y) ->
  0 < alloc_size bits sizeofT1 n1 <= N ->
  0 < alloc_size bits sizeofT n <= N ->
  overlap (p1, alloc_size bits sizeofT1 n1) (q, alloc_size bits sizeofT n).
Proof.
  intros H Em A1 A B A2 L1 L.
  assert (A' : allocs bits memory_ N ((sizeofT1, n1) :: rs) x = Some x')
    by (cbn [allocs]; rewrite A1; exact A).
  pose proof (reset_state bits memory_ N ((sizeofT1, n1) :: rs) x x' Em B A')
    as E.
  cbn [length] in E. rewrite E in A2.
  pose proof (remainingSpace_Empty bits memory_ N x H Em) as R.
  destruct (allocate_fit bits memory_ N sizeofT1 n1 x H ltac:(lia))
    as (z1 & E1 & _).
  destruct (allocate_fit bits memory_ N sizeofT n x H ltac:(lia))
    as (z2 & E2 & _).
  rewrite E1 in A1. rewrite E2 in A2.
  inversion A1 as [[P1 Y1]]. inversion A2 as [[P2 Y2]].
  unfold overlap. cbn [fst snd].
  destruct (direction_of x).
  - exists (cursor x). lia.
  - exists (cursor x - 1). lia.
Qed.

Lemma X8_reuse_after_reset_witness :
  let y1 := Upward {| BumpAllocator.next_ := 4100;
                      BumpAllocator.allocations_ := 1 |} in
  let x' := Upward {| BumpAllocator.next_ := 4108;
                      BumpAllocator.allocations_ := 2 |} in
  let y := Upward {| BumpAllocator.next_ := 4098;
                     BumpAllocator.allocations_ := 1 |} in
  wf 64 4096 16 (construct 64 4096 16 Up) /\
  Empty 64 4096 16 (construct 64 4096 16 Up) /\
  allocate 64 4096 16 4 1 (construct 64 4096 16 Up) = (Some 4096, y1) /\
  allocs 64 4096 16 [(8, 1)] y1 = Some x' /\
  Z.of_nat (S (length [(8, 1)])) < modulus 64 /\
  allocate 64 4096 16 1 2 (releases 64 4096 16 (S (length [(8, 1)])) x')
    = (Some 4096, y) /\
  0 < alloc_size 64 4 1 <= 16 /\
  0 < alloc_size 64 1 2 <= 16 /\
  overlap (4096, alloc_size 64 4 1) (4096, alloc_size 64 1 2).
Proof.
  cbv zeta.
  assert (B : Z.of_nat (S (length [(8, 1)])) < modulus 64)
    by (unfold modulus; cbn [length]; lia).
  assert (L1 : 0 < alloc_size 64 4 1 <= 16)
    by (split; [reflexivity | vm_compute; discriminate]).
  assert (L : 0 < alloc_size 64 1 2 <= 16)
    by (split; [reflexivity | vm_compute; discriminate]).
  split; [apply wf_fresh_16 | split; [apply Empty_construct | ]].
  split; [reflexivity | split; [reflexivity | split; [exact B | ]]].
  split; [reflexivity | split; [exact L1 | split; [exact L | ]]].
  exact (X8_reuse_after_reset 64 4096 16 (construct 64 4096 16 Up) _ _ _
           [(8, 1)] 4 1 4096 1 2 4096 (wf_fresh_16 Up)
           (Empty_construct 64 4096 16 Up)
           eq_refl eq_refl B eq_refl L1 L).
Defined.

(** X9: with requests of non-zero length within reach of the bound test
    only, every live allocation holds at least one byte: in every state
    reached from a fresh arena by such requests and [dealloc]s the live
    count is at most the number of bytes in use, hence at most the capacity,
    and the counter cannot wrap. *)
Theorem X9_count_bounded_by_bytes
  (bits : positive) (memory_ N : Z) (d : direction) (cs : list call) :
  0 < memory_ -> 0 <= N -> memory_ + N < modulus bits ->
  Forall (fun c => reach bits memory_ N d (length_of bits c)) cs ->
  forallb (fun c => negb (zero_length bits c)) cs = true ->
  let x := run bits memory_ N cs (construct bits memory_ N d) in
  allocationCount x <= N - remainingSpace bits memory_ N x /\
  allocationCount x <= N /\
  allocationCount x < modulus bits.
Proof.
  intros Hm HN HM Fr F x.
  pose proof (wf_construct bits memory_ N d Hm HN HM) as W0.
  assert (D0 : direction_of (construct bits memory_ N d) = d)
    by (destruct d; reflexivity).
  rewrite <- D0 in Fr.
  destruct (wf_run bits memory_ N cs _ W0 Fr) as (W & _). fold x in W.
  pose proof (remainingSpace_range bits memory_ N x W) as Hr.
  assert (R0 : remainingSpace bits memory_ N (construct bits memory_ N d) = N)
    by (apply remainingSpace_Empty; [exact W0 | apply Empty_construct]).
  assert (K0 : allocationCount (construct bits memory_ N d) = 0)
    by (destruct d; reflexivity).
  pose proof (run_count_bound bits memory_ N cs _ W0 Fr ltac:(lia) F) as Bd.
  fold x in Bd. lia.
Qed.

Lemma X9_count_bounded_by_bytes_witness :
  let cs := [Alloc 4 1; Alloc 1 3; Dealloc; Alloc 8 1] in
  0 < 4096 /\ 0 <= 16 /\ 4096 + 16 < modulus 64 /\
  Forall (fun c => reach 64 4096 16 Up (length_of 64 c)) cs /\
  forallb (fun c => negb (zero_length 64 c)) cs = true /\
  allocationCount (run 64 4096 16 cs (construct 64 4096 16 Up))
    <= 16 - remainingSpace 64 4096 16
              (run 64 4096 16 cs (construct 64 4096 16 Up)).
Proof.
  cbv zeta.
  assert (Hm : 0 < 4096) by lia.
  assert (HN : 0 <= 16) by lia.
  assert (HM : 4096 + 16 < modulus 64) by (unfold modulus; lia).
  assert (Fr : Forall (fun c => reach 64 4096 16 Up (length_of 64 c))
                 [Alloc 4 1; Alloc 1 3; Dealloc; Alloc 8 1])
    by (repeat constructor; vm_compute; reflexivity).
  split; [exact Hm | split; [exact HN | split; [exact HM | ]]].
  split; [exact Fr | split; [reflexivity | ]].
  exact (proj1 (X9_count_bounded_by_bytes 64 4096 16 Up
                  [Alloc 4 1; Alloc 1 3; Dealloc; Alloc 8 1]
                  Hm HN HM Fr eq_refl)).
Defined.

Section Mixed.
Variable bits : positive.
Variable sizeof_int : Z.

Lemma firstn_seq_le (i : nat) :
  forall start len : nat, (i <= len)%nat ->
    firstn i (seq start len) = seq start i.
Proof.
  induction i as [ | i IH]; intros start [ | len] L; try reflexivity; try lia.
  cbn [seq firstn]. f_equal. apply IH. lia.
Qed.

Lemma half_of_even (k : Z) : (2 * k) / 2 = k /\ (2 * k) mod 2 = 0.
Proof. Z.div_mod_to_equations. lia. Qed.

Lemma half_of_odd (k : Z) : (2 * k + 1) / 2 = k /\ (2 * k + 1) mod 2 = 1.
Proof. Z.div_mod_to_equations. lia. Qed.

(** The requests of the mixed loop, as pairs [(sizeof(T), n)]. *)
Lemma mixed_calls_requests (iterations : nat) :
  mixed_calls sizeof_int iterations =
    request_calls
      (map (fun i => if Nat.even i then (1, 1) else (sizeof_int, 1))
         (seq 0 iterations)).
Proof.
  unfold mixed_calls, request_calls. rewrite map_map. apply map_ext.
  intros i. unfold mixed_call. destruct (Nat.even i); reflexivity.
Qed.

(** The bytes asked for by the first [i] iterations. *)
Lemma mixed_prefix (i : nat) :
  0 < sizeof_int < modulus bits ->
  total_length bits
    (map (fun i => if Nat.even i then (1, 1) else (sizeof_int, 1)) (seq 0 i)) =
    Z.of_nat i / 2 * (1 + sizeof_int) + Z.of_nat i mod 2.
Proof.
  intros Hs.
  assert (S1 : alloc_size bits 1 1 = 1) by (apply alloc_size_exact; lia).
  assert (S2 : alloc_size bits sizeof_int 1 = sizeof_int)
    by (pose proof (alloc_size_exact bits sizeof_int 1 ltac:(lia)); lia).
  induction i as [ | i IH]; [reflexivity | ].
  rewrite seq_S, map_app, total_length_app, IH. cbn [map plus total_length].
  destruct (Nat.even i) eqn:Ev.
  - apply Nat.even_spec in Ev as [k ->]. rewrite S1.
    replace (Z.of_nat (S (2 * k))) with (2 * Z.of_nat k + 1) by lia.
    replace (Z.of_nat (2 * k)) with (2 * Z.of_nat k) by lia.
    destruct (half_of_even (Z.of_nat k)) as (-> & ->).
    destruct (half_of_odd (Z.of_nat k)) as (-> & ->). lia.
  - rewrite <- Nat.negb_odd in Ev. apply negb_false_iff in Ev.
    apply Nat.odd_spec in Ev as [k ->]. rewrite S2.
    replace (Z.of_nat (S (2 * k + 1))) with (2 * (Z.of_nat k + 1)) by lia.
    replace (Z.of_nat (2 * k + 1)) with (2 * Z.of_nat k + 1) by lia.
    destruct (half_of_even (Z.of_nat k + 1)) as (-> & ->).
    destruct (half_of_odd (Z.of_nat k)) as (-> & ->). lia.
Qed.
End Mixed.

(** X10: [benchmark_mixed_allocations] with [sizeof(int)] between 1 and
    2096 bytes.  All 1000 allocations fit in the heap.  In the upward arena
    iteration [i] is handed the address at offset
    [(i / 2) * (1 + sizeof(int)) + i % 2] from the start of the heap: each
    [int] starts one byte after the [char] before it, at an offset that is a
    multiple of [1 + sizeof(int)] plus 1, with no padding for alignment.  In
    the downward arena the same distances are counted back from the end of
    the heap.  The loop leaves 1000 live allocations and
    [500 * (1 + sizeof(int))] bytes in use. *)
Theorem X10_mixed_benchmark
  (bits : positive) (memory_ sizeof_int : Z) (d : direction) (i : nat) :
  0 < memory_ ->
  memory_ + HEAP_SIZE < modulus bits ->
  0 < sizeof_int ->
  500 * (1 + sizeof_int) <= HEAP_SIZE ->
  (i < 1000)%nat ->
  nth_error (fst (mixed_allocations bits memory_ sizeof_int d)) i =
    Some (Returned (Some
      match d with
      | Up => memory_
              + (Z.of_nat i / 2 * (1 + sizeof_int) + Z.of_nat i mod 2)
      | Down => memory_ + HEAP_SIZE
                - (Z.of_nat i / 2 * (1 + sizeof_int) + Z.of_nat i mod 2)
                - (if Nat.even i then 1 else sizeof_int)
      end)) /\
  remainingSpace bits memory_ HEAP_SIZE
    (snd (mixed_allocations bits memory_ sizeof_int d)) =
    HEAP_SIZE - 500 * (1 + sizeof_int) /\
  allocationCount (snd (mixed_allocations bits memory_ sizeof_int d)) = 1000.
Proof.
  intros Hm B Hs Fit Hi.
  pose proof (wf_heap bits memory_ d Hm B) as W.
  assert (HH : HEAP_SIZE = 1048576) by reflexivity.
  assert (Hs' : 0 < sizeof_int < modulus bits) by lia.
  assert (R : remainingSpace bits memory_ HEAP_SIZE
                (construct bits memory_ HEAP_SIZE d) = HEAP_SIZE)
    by (apply remainingSpace_Empty; [exact W | apply Empty_construct]).
  assert (C0 : cursor (construct bits memory_ HEAP_SIZE d) =
               match d with Up => memory_ | Down => memory_ + HEAP_SIZE end).
  { destruct d; cbn; unfold BumpDownAllocator.init; cbn;
      rewrite ?wrap_small by lia; reflexivity. }
  assert (D0 : direction_of (construct bits memory_ HEAP_SIZE d) = d)
    by (destruct d; reflexivity).
  assert (K0 : allocationCount (construct bits memory_ HEAP_SIZE d) = 0)
    by (destruct d; reflexivity).
  unfold mixed_allocations. rewrite mixed_calls_requests.
  set (rs := map (fun i => if Nat.even i then (1, 1) else (sizeof_int, 1))
               (seq 0 1000)).
  assert (T : total_length bits rs = 500 * (1 + sizeof_int)).
  { unfold rs. rewrite (mixed_prefix bits sizeof_int 1000 Hs').
    change (Z.of_nat 1000 / 2) with 500. change (Z.of_nat 1000 mod 2) with 0.
    lia. }
  assert (L : total_length bits rs
              <= remainingSpace bits memory_ HEAP_SIZE
                   (construct bits memory_ HEAP_SIZE d))
    by (rewrite T, R; exact Fit).
  destruct (allocs_fit bits memory_ HEAP_SIZE rs _ W L)
    as (x' & A & _ & _ & R').
  pose proof (allocs_run bits memory_ HEAP_SIZE rs _ x' A) as E.
  unfold run in E.
  split; [ | split].
  - assert (En : nth_error rs i =
                 Some (if Nat.even i then (1, 1) else (sizeof_int, 1))).
    { unfold rs. rewrite nth_error_map, nth_error_seq.
      destruct (Nat.ltb_spec i 1000); [reflexivity | lia]. }
    assert (P : total_length bits (firstn i rs) =
                Z.of_nat i / 2 * (1 + sizeof_int) + Z.of_nat i mod 2).
    { unfold rs. rewrite firstn_map, firstn_seq_le by lia.
      apply mixed_prefix. exact Hs'. }
    assert (S1 : alloc_size bits 1 1 = 1) by (apply alloc_size_exact; lia).
    assert (S2 : alloc_size bits sizeof_int 1 = sizeof_int)
      by (pose proof (alloc_size_exact bits sizeof_int 1 ltac:(lia)); lia).
    destruct (Nat.even i) eqn:Ev.
    + rewrite (batch_offsets bits memory_ HEAP_SIZE rs _ i 1 1 W L En),
        P, S1, D0, C0.
      destruct d; reflexivity.
    + rewrite (batch_offsets bits memory_ HEAP_SIZE rs _ i sizeof_int 1
                 W L En), P, S2, D0, C0.
      destruct d; reflexivity.
  - rewrite E, R', R, T. reflexivity.
  - pose proof (modulus_pos bits) as Mp.
    destruct (allocs_count bits memory_ HEAP_SIZE rs
                (construct bits memory_ HEAP_SIZE d) x'
                ltac:(rewrite K0; lia) A) as (_ & K).
    rewrite E, K, K0. unfold rs. rewrite length_map, length_seq.
    change (Z.of_nat 1000) with 1000. apply wrap_small. lia.
Qed.

Lemma X10_mixed_benchmark_witness :
  0 < 4096 /\
  4096 + HEAP_SIZE < modulus 64 /\
  0 < 4 /\
  500 * (1 + 4) <= HEAP_SIZE /\
  (1 < 1000)%nat /\
  nth_error (fst (mixed_allocations 64 4096 4 Up)) 1 =
    Some (Returned
            (Some (4096 + (Z.of_nat 1 / 2 * (1 + 4) + Z.of_nat 1 mod 2)))).
Proof.
  assert (Hm : 0 < 4096) by lia.
  assert (B : 4096 + HEAP_SIZE < modulus 64)
    by (unfold modulus, HEAP_SIZE; lia).
  assert (Hs : 0 < 4) by lia.
  assert (Fit : 500 * (1 + 4) <= HEAP_SIZE) by (unfold HEAP_SIZE; lia).
  assert (Hi : (1 < 1000)%nat) by lia.
  split; [exact Hm | split; [exact B | split; [exact Hs | ]]].
  split; [exact Fit | split; [exact Hi | ]].
  exact (proj1 (X10_mixed_benchmark 64 4096 4 Up 1 Hm B Hs Fit Hi)).
Defined.

(** * The test fixture of simpletest.h *)

Section Fixture.
Import TestFixture.
Variable INT_MAX : Z.

Lemma filter_all (A : Type) (f : A -> bool) (l : list A) :
  (length (filter f l) <= length l)%nat /\
  (length (filter f l) = length l <-> forallb f l = true).
Proof.
  induction l as [ | a l (IH1 & IH2)]; cbn [filter forallb length].
  - split; [lia | tauto].
  - destruct (f a); cbn [length andb].
    + split; [lia | ]. rewrite <- IH2. lia.
    + split; [lia | ]. split; [lia | discriminate].
Qed.

Lemma count_failures_app (l1 l2 : list line) :
  length (filter is_failure (l1 ++ l2)) =
    (length (filter is_failure l1) + length (filter is_failure l2))%nat.
Proof. rewrite filter_app, length_app. reflexivity. Qed.

(** One assertion, with room left in the counters. *)
Lemma assert_spec (a : assertion) (s : t) :
  passedTests s <= totalTests s ->
  totalTests s < INT_MAX ->
  exists s',
    assert INT_MAX a s = Some s' /\
    totalTests s' = totalTests s + 1 /\
    passedTests s' = passedTests s + (if holds a then 1 else 0) /\
    Verbose s' = Verbose s /\
    length (filter is_failure (cout s')) =
      (length (filter is_failure (cout s))
       + (if holds a then 0 else 1))%nat /\
    (Verbose s = true -> length (cout s') = S (length (cout s))).
Proof.
  intros I B.
  destruct a as [c m f n | c e ac m f n];
    unfold assert, TEST_MESSAGE, TEST_EQUAL, IncrementTotal,
      IncrementPassed, incr; cbn [holds totalTests passedTests];
    (destruct (Z.ltb_spec (totalTests s) INT_MAX); [ | lia]);
    destruct c; cbn [negb passedTests totalTests Verbose];
    try (destruct (Z.ltb_spec (passedTests s) INT_MAX); [ | lia]);
    cbn [Verbose]; try destruct (Verbose s) eqn:V;
    eexists; (split; [reflexivity | ]);
    unfold print; cbn [totalTests passedTests Verbose cout];
    rewrite ?count_failures_app, ?length_app; cbn;
    repeat split; intros; try lia; try discriminate.
Qed.

(** At [INT_MAX] the increment of [totalTests] is undefined. *)
Lemma assert_undefined (a : assertion) (s : t) :
  INT_MAX <= totalTests s -> assert INT_MAX a s = None.
Proof.
  intros B.
  destruct a as [c m f n | c e ac m f n];
    unfold assert, TEST_MESSAGE, TEST_EQUAL, IncrementTotal, incr;
    (destruct (Z.ltb_spec (totalTests s) INT_MAX); [lia | reflexivity]).
Qed.

Lemma asserts_spec (l : list assertion) :
  forall s : t,
    passedTests s <= totalTests s ->
    totalTests s + Z.of_nat (length l) <= INT_MAX ->
    exists s',
      asserts INT_MAX l s = Some s' /\
      totalTests s' = totalTests s + Z.of_nat (length l) /\
      passedTests s' = passedTests s + Z.of_nat (length (filter holds l)) /\
      Verbose s' = Verbose s /\
      length (filter is_failure (cout s')) =
        (length (filter is_failure (cout s))
         + (length l - length (filter holds l)))%nat /\
      (Verbose s = true ->
       length (cout s') = (length (cout s) + length l)%nat).
Proof.
  induction l as [ | a l IH]; intros s I B.
  - exists s. cbn. repeat split; intros; lia.
  - cbn [length] in B. rewrite Nat2Z.inj_succ in B.
    destruct (assert_spec a s I ltac:(lia)) as (s1 & E & T & P & V & F & C).
    destruct (IH s1) as (s' & E' & T' & P' & V' & F' & C').
    + destruct (holds a); lia.
    + lia.
    + exists s'. cbn [asserts]. rewrite E.
      pose proof (proj1 (filter_all _ holds l)) as Le.
      split; [exact E' | ]. cbn [filter length].
      destruct (holds a); cbn [length];
        repeat split; intros; try rewrite C', C; try lia; try congruence.
Qed.

Lemma asserts_undefined (l : list assertion) :
  forall s : t,
    passedTests s <= totalTests s ->
    totalTests s <= INT_MAX ->
    INT_MAX < totalTests s + Z.of_nat (length l) ->
    asserts INT_MAX l s = None.
Proof.
  induction l as [ | a l IH]; intros s I B U.
  - cbn in U. lia.
  - cbn [asserts].
    destruct (Z.eq_dec (totalTests s) INT_MAX) as [E | E].
    + rewrite assert_undefined by lia. reflexivity.
    + destruct (assert_spec a s I ltac:(lia)) as (s1 & -> & T & P & _).
      cbn [length] in U. rewrite Nat2Z.inj_succ in U.
      apply IH; destruct (holds a); lia.
Qed.

Lemma ExecuteTestGroup_spec
  (name : String.string) (verbose : bool) (s : t) :
  fst (ExecuteTestGroup name verbose s) = (passedTests s =? totalTests s) /\
  passedTests (snd (ExecuteTestGroup name verbose s)) = 0 /\
  totalTests (snd (ExecuteTestGroup name verbose s)) = 0 /\
  Verbose (snd (ExecuteTestGroup name verbose s)) = Verbose s.
Proof. unfold ExecuteTestGroup, print. cbn. auto. Qed.

(** The loop of [main], started with cleared counters. *)
Lemma run_groups_spec (groups : list (String.string * list assertion)) :
  forall (pass : bool) (s : t),
    passedTests s = 0 -> totalTests s = 0 ->
    Forall (fun g => Z.of_nat (length (snd g)) <= INT_MAX) groups ->
    exists s',
      run_groups INT_MAX groups pass s =
        Some (pass && forallb (fun g => forallb holds (snd g)) groups, s').
Proof.
  induction groups as [ | [name l] groups IH]; intros pass s P T F.
  - exists s. cbn. rewrite andb_true_r. reflexivity.
  - inversion F as [ | g gs Fl Fg]; subst. cbn [snd] in Fl.
    destruct (asserts_spec l (print (RunningGroup name) s))
      as (s1 & E & T1 & P1 & _);
      [cbn [print passedTests totalTests]; lia
      | cbn [print passedTests totalTests]; lia | ].
    cbn [print passedTests totalTests] in T1, P1.
    cbn [run_groups]. rewrite E.
    destruct (ExecuteTestGroup_spec name (Verbose s1) s1) as (V & P2 & T2 & _).
    destruct (ExecuteTestGroup name (Verbose s1) s1) as [allPassed s2].
    cbn [fst snd] in *.
    destruct (IH (pass && allPassed) s2 P2 T2 Fg) as (s' & R).
    exists s'. rewrite R. f_equal. f_equal. cbn [forallb snd].
    rewrite <- andb_assoc. f_equal. f_equal. subst allPassed.
    rewrite P1, T1, P, T.
    pose proof (filter_all _ holds l) as (Le & Eq).
    destruct (forallb holds l) eqn:Al.
    + apply Z.eqb_eq. pose proof (proj2 Eq eq_refl). lia.
    + apply Z.eqb_neq. intros C.
      assert (C' : length (filter holds l) = length l) by lia.
      apply Eq in C'. discriminate.
Qed.
End Fixture.

(** X11: the verdict of a test group.  Starting from cleared counters, a
    group of at most [INT_MAX] assertions leaves [totalTests] at their number
    and [passedTests] at the number of those that hold, prints one failure
    report per assertion that does not hold, and [ExecuteTestGroup] then
    returns [true] exactly when every assertion of the group holds, and
    clears both counters for the next group.  A group of more than
    [INT_MAX] assertions runs into the undefined increment of an [int] at
    [INT_MAX]. *)
Theorem X11_group_verdict
  (INT_MAX : Z) (l : list TestFixture.assertion) (s : TestFixture.t)
  (name : String.string) (verbose : bool) :
  0 <= INT_MAX ->
  TestFixture.passedTests s = 0 ->
  TestFixture.totalTests s = 0 ->
  (Z.of_nat (length l) <= INT_MAX ->
   exists s',
     TestFixture.asserts INT_MAX l s = Some s' /\
     TestFixture.totalTests s' = Z.of_nat (length l) /\
     TestFixture.passedTests s' =
       Z.of_nat (length (filter TestFixture.holds l)) /\
     length (filter TestFixture.is_failure (TestFixture.cout s')) =
       (length (filter TestFixture.is_failure (TestFixture.cout s))
        + (length l - length (filter TestFixture.holds l)))%nat /\
     fst (TestFixture.ExecuteTestGroup name verbose s') =
       forallb TestFixture.holds l /\
     TestFixture.passedTests
       (snd (TestFixture.ExecuteTestGroup name verbose s')) = 0 /\
     TestFixture.totalTests
       (snd (TestFixture.ExecuteTestGroup name verbose s')) = 0) /\
  (INT_MAX < Z.of_nat (length l) ->
   TestFixture.asserts INT_MAX l s = None).
Proof.
  intros H0 P T. split.
  - intros B.
    destruct (asserts_spec INT_MAX l s ltac:(lia) ltac:(lia))
      as (s' & E & T' & P' & _ & F & _).
    destruct (ExecuteTestGroup_spec name verbose s') as (V & P2 & T2 & _).
    exists s'. rewrite T, Z.add_0_l in T'. rewrite P, Z.add_0_l in P'.
    split; [exact E | split; [exact T' | split; [exact P' | ]]].
    split; [exact F | split; [ | split; [exact P2 | exact T2]]].
    rewrite V, P', T'.
    pose proof (filter_all _ TestFixture.holds l) as (Le & Eq).
    destruct (forallb TestFixture.holds l) eqn:Al.
    + apply Z.eqb_eq. pose proof (proj2 Eq eq_refl). lia.
    + apply Z.eqb_neq. intros C.
      assert (C' : length (filter TestFixture.holds l) = length l) by lia.
      apply Eq in C'. discriminate.
  - intros U. apply asserts_undefined; lia.
Qed.

Lemma X11_group_verdict_witness :
  let l := [TestFixture.Message true String.EmptyString String.EmptyString 37;
            TestFixture.Message false String.EmptyString String.EmptyString 55]
  in
  0 <= 2147483647 /\
  TestFixture.passedTests TestFixture.init = 0 /\
  TestFixture.totalTests TestFixture.init = 0 /\
  Z.of_nat (length l) <= 2147483647 /\
  exists s',
    TestFixture.asserts 2147483647 l TestFixture.init = Some s' /\
    TestFixture.totalTests s' = Z.of_nat (length l) /\
    TestFixture.passedTests s' =
      Z.of_nat (length (filter TestFixture.holds l)) /\
    length (filter TestFixture.is_failure (TestFixture.cout s')) =
      (length (filter TestFixture.is_failure
                 (TestFixture.cout TestFixture.init))
       + (length l - length (filter TestFixture.holds l)))%nat /\
    fst (TestFixture.ExecuteTestGroup String.EmptyString true s') =
      forallb TestFixture.holds l /\
    TestFixture.passedTests
      (snd (TestFixture.ExecuteTestGroup String.EmptyString true s')) = 0 /\
    TestFixture.totalTests
      (snd (TestFixture.ExecuteTestGroup String.EmptyString true s')) = 0.
Proof.
  cbv zeta.
  assert (H0 : 0 <= 2147483647) by lia.
  assert (B : Z.of_nat (length
                [TestFixture.Message true String.EmptyString
                   String.EmptyString 37;
                 TestFixture.Message false String.EmptyString
                   String.EmptyString 55]) <= 2147483647)
    by (cbn [length]; lia).
  split; [exact H0 | split; [reflexivity | split; [reflexivity | ]]].
  split; [exact B | ].
  exact (proj1 (X11_group_verdict 2147483647 _ TestFixture.init
                  String.EmptyString true H0 eq_refl eq_refl) B).
Defined.

(** X12: the exit code of the test program.  When no group has more than
    [INT_MAX] assertions, [main] of task2.cpp returns 0 exactly when every
    assertion of every group holds and 1 otherwise; as the counters are
    cleared after each group, a failure in one group does not change the
    verdict of another, and it is not forgotten by later groups. *)
Theorem X12_main_exit_code
  (INT_MAX : Z) (groups : list (String.string * list TestFixture.assertion)) :
  Forall (fun g => Z.of_nat (length (snd g)) <= INT_MAX) groups ->
  TestFixture.main INT_MAX groups =
    Some (if forallb (fun g => forallb TestFixture.holds (snd g)) groups
          then 0 else 1).
Proof.
  intros F. unfold TestFixture.main.
  destruct (run_groups_spec INT_MAX groups true TestFixture.init
              eq_refl eq_refl F) as (s' & ->).
  reflexivity.
Qed.

Lemma X12_main_exit_code_witness :
  let groups :=
    [(String.EmptyString,
      [TestFixture.Message true String.EmptyString String.EmptyString 37;
       TestFixture.Message false String.EmptyString String.EmptyString 55])]
  in
  Forall (fun g => Z.of_nat (length (snd g)) <= 2147483647) groups /\
  TestFixture.main 2147483647 groups = Some 1.
Proof.
  cbv zeta.
  assert (F : Forall (fun g : String.string * list TestFixture.assertion =>
                        Z.of_nat (length (snd g)) <= 2147483647)
                [(String.EmptyString,
                  [TestFixture.Message true String.EmptyString
                     String.EmptyString 37;
                   TestFixture.Message false String.EmptyString
                     String.EmptyString 55])])
    by (repeat constructor; cbn; lia).
  split; [exact F | ].
  exact (X12_main_exit_code 2147483647 _ F).
Defined.
